(** * Cybot-Telegram: the composition wizard and the broadcast loop of bot.py

    A shallow embedding of [src/bot.py]: Python [str] values are lists of
    Unicode code points, the per-user [context.user_data] dict is a [gmap]
    keyed by strings, the chat registry is an insertion-ordered association
    list, and the handlers are written in a state-and-exception monad whose
    state carries the user data, the registry and the trace of Bot API
    calls made so far. *)

From Stdlib Require Import ZArith NArith Ascii String.
From stdpp Require Import gmap strings list.

Open Scope list_scope.

(** ** Python strings *)

Module PyStr.

(** A code point; [len] of a Python [str] counts these. *)
Definition char := N.
Definition str := list char.

(** An ASCII literal of the source as a [str]. *)
Definition lit (s : string) : str :=
  map N_of_ascii (list_ascii_of_string s).

(** [str.isspace] on one character: the code points CPython treats as
    white space (bidirectional type WS, B or S, or category Zs). *)
Definition isspace (c : char) : bool :=
  ((9 <=? c) && (c <=? 13) || (28 <=? c) && (c <=? 32)
   || (c =? 133) || (c =? 160) || (c =? 5760)
   || (8192 <=? c) && (c <=? 8202)
   || (c =? 8232) || (c =? 8233) || (c =? 8239) || (c =? 8287)
   || (c =? 12288))%N.

Fixpoint lstrip (s : str) : str :=
  match s with
  | [] => []
  | c :: s' => if isspace c then lstrip s' else s
  end.

Fixpoint rstrip (s : str) : str :=
  match s with
  | [] => []
  | c :: s' =>
      match rstrip s' with
      | [] => if isspace c then [] else [c]
      | r => c :: r
      end
  end.

(** [s.strip()] *)
Definition strip (s : str) : str := rstrip (lstrip s).

(** [c in s] for a one-character [c] *)
Definition contains (c : char) (s : str) : bool := existsb (N.eqb c) s.

(** [s.split(sep, 1)] for a one-character separator: at most one split,
    at the first occurrence. *)
Fixpoint split1 (sep : char) (s : str) : list str :=
  match s with
  | [] => [[]]
  | c :: s' =>
      if (c =? sep)%N then [[]; s']
      else match split1 sep s' with
           | p :: rest => (c :: p) :: rest
           | [] => [[c]]
           end
  end.

(** [s.startswith(p)] *)
Fixpoint startswith (p s : str) : bool :=
  match p, s with
  | [], _ => true
  | _ :: _, [] => false
  | a :: p', b :: s' => (a =? b)%N && startswith p' s'
  end.

(** Truth value of [s] in a condition: the empty string is false. *)
Definition nonempty (s : str) : bool :=
  match s with [] => false | _ :: _ => true end.

Definition bar : char := 124%N.

End PyStr.
Import PyStr.

Arguments lit : simpl never.
Arguments startswith : simpl never.
Arguments strip : simpl never.

(** ** Data model *)

(** The dict built by [new_post]: every key is always present and holds
    [None] or a string. *)
Record Post := {
  image : option str;
  title : option str;
  description : option str;
  url : option str;
  button_text : option str
}.

Definition set_image (v : option str) (p : Post) : Post :=
  {| image := v; title := title p; description := description p;
     url := url p; button_text := button_text p |}.
Definition set_title (v : option str) (p : Post) : Post :=
  {| image := image p; title := v; description := description p;
     url := url p; button_text := button_text p |}.
Definition set_description (v : option str) (p : Post) : Post :=
  {| image := image p; title := title p; description := v;
     url := url p; button_text := button_text p |}.
Definition set_url (v : option str) (p : Post) : Post :=
  {| image := image p; title := title p; description := description p;
     url := v; button_text := button_text p |}.
Definition set_button_text (v : option str) (p : Post) : Post :=
  {| image := image p; title := title p; description := description p;
     url := url p; button_text := v |}.

(** The value [new_post] stores under ['post']. *)
Definition fresh_post : Post :=
  {| image := None; title := None; description := None;
     url := None; button_text := None |}.

(** Truth value of [post[key]] in a condition: [None] and [''] are false. *)
Definition truthy (o : option str) : bool :=
  match o with Some s => nonempty s | None => false end.

(** [f"{v}"] for a value that is [None] or a string. *)
Definition fmt (o : option str) : str :=
  match o with Some s => s | None => lit "None" end.

(** One record of [ChatStorage.chats]. The registry itself is the list of
    its items in insertion order; its keys are [str(chat_id)] of an
    integer, so [int(chat_id)] gives that integer back and the key is kept
    as a [Z]. *)
Record ChatInfo := {
  chat_title : str;
  chat_type : str;
  added_at : str
}.

(** Conversation states; [END] is [ConversationHandler.END]. *)
Inductive State :=
| SELECTING_ACTION | UPLOADING_IMAGE | ENTERING_TITLE
| ENTERING_DESCRIPTION | ENTERING_URL | PREVIEW | END.

#[global] Instance State_eq_dec : EqDecision State.
Proof. solve_decision. Defined.

(** An incoming update, by the attributes the handlers read. *)
Inductive Update :=
| text_message (text : str)          (* message.text set, not a command *)
| photo_message (photo : list str)   (* file ids of message.photo *)
| command (name : string)            (* /name *)
| callback (data : string).          (* callback_query.data *)

(** Buttons of an inline keyboard. *)
Inductive Button :=
| callback_button (data : string)
| url_button (text : option str) (target : option str).

(** The texts the bot sends to the operator, by the place of the source
    that builds them, with the values interpolated into them. *)
Inductive Msg :=
| new_post_prompt | image_received | title_prompt | title_too_long
| title_saved | description_prompt | description_too_long
| description_saved | url_prompt | invalid_format | invalid_url
| button_saved | operation_cancelled | no_chats_available
| broadcasting (total : nat)
| post_preview (shown_title shown_description : option str)
               (chat_count : nat) (has_image has_button : bool)
| broadcast_complete (success failed total : nat)
                     (shown : list str) (more : option nat).

(** Calls on the Bot API, in the order they are awaited. *)
Inductive Call :=
| answer
| reply_text (m : Msg) (keyboard : list Button)
| edit_text (m : Msg) (keyboard : list Button)
| reply_photo (photo : option str) (caption : Msg) (keyboard : list Button)
| get_chat_member (chat_id user_id : Z)
| send_photo (chat_id : Z) (photo : option str) (caption : str)
             (reply_markup : option Button)
| send_message (chat_id : Z) (text : str) (reply_markup : option Button).

(** Exceptions a handler can raise. *)
Inductive Exn :=
| KeyError (key : string)
| AttributeError
| IndexError
| TelegramError (msg : str).

(** [str(e)] *)
Definition str_exn (e : Exn) : str :=
  match e with
  | KeyError k => lit "'" ++ lit k ++ lit "'"
  | AttributeError => lit "'NoneType' object has no attribute"
  | IndexError => lit "list index out of range"
  | TelegramError m => m
  end.

(** [context.bot] as seen from the handlers: its id, and for every call
    what the platform answers given the calls made before it. A call
    either raises an error with the given message or returns; only the
    status of the member returned by [get_chat_member] is read. *)
Record Bot := {
  id : Z;
  chat_member_status : list Call -> Z -> Z -> str + str;
  raises : list Call -> Call -> option str
}.

(** What a handler can read and change. *)
Record World := {
  user_data : gmap string Post;
  chats : list (Z * ChatInfo);
  trace : list Call
}.

Definition with_user_data (d : gmap string Post) (w : World) : World :=
  {| user_data := d; chats := chats w; trace := trace w |}.
Definition logged (c : Call) (w : World) : World :=
  {| user_data := user_data w; chats := chats w; trace := trace w ++ [c] |}.

(** ** The handler monad: state and exceptions *)

Definition M (A : Type) : Type := World -> (Exn + A) * World.

#[global] Instance M_ret : MRet M := fun A (a : A) w => (inr a, w).
#[global] Instance M_bind : MBind M := fun A B (f : A -> M B) (m : M A) w =>
  match m w with
  | (inl e, w') => (inl e, w')
  | (inr a, w') => f a w'
  end.

Definition raise {A} (e : Exn) : M A := fun w => (inl e, w).

(** [try: m except Exception as e: h e] *)
Definition try_except {A} (m : M A) (h : Exn -> M A) : M A :=
  fun w => match m w with
           | (inl e, w') => h e w'
           | (inr a, w') => (inr a, w')
           end.

(** [l[i]] *)
Definition index {A} (l : list A) (i : nat) : M A :=
  match l !! i with Some a => mret a | None => raise IndexError end.

(** [l[-1]] *)
Definition index_last {A} (l : list A) : M A :=
  match last l with Some a => mret a | None => raise IndexError end.

(** [context.user_data['post']] *)
Definition get_post : M Post :=
  fun w => match user_data w !! "post"%string with
           | Some p => (inr p, w)
           | None => (inl (KeyError "post"), w)
           end.

(** [context.user_data['post'] = p] *)
Definition put_post (p : Post) : M unit :=
  fun w => (inr tt, with_user_data (<["post"%string := p]> (user_data w)) w).

(** [context.user_data['post'][key] = v], with [f] the update of [key] *)
Definition update_post (f : Post -> Post) : M unit :=
  p ← get_post; put_post (f p).

(** [context.user_data.clear()] *)
Definition clear_user_data : M unit :=
  fun w => (inr tt, with_user_data ∅ w).

(** [chat_storage.get_all_chats()] *)
Definition get_all_chats : M (list (Z * ChatInfo)) :=
  fun w => (inr (chats w), w).

(** [chat_storage.get_chat_count()] *)
Definition get_chat_count : M nat :=
  fun w => (inr (length (chats w)), w).

(** ** What the handlers read from an update *)

(** [update.message] is set for messages, [update.callback_query] for
    button presses. *)
Definition has_message (u : Update) : bool :=
  match u with callback _ => false | _ => true end.
Definition has_callback_query (u : Update) : bool :=
  match u with callback _ => true | _ => false end.

(** [update.message.text.strip()]: the attribute access fails when there
    is no message or the message has no text. *)
Definition message_text_strip (u : Update) : M str :=
  match u with
  | text_message t => mret (strip t)
  | command n => mret (strip (lit "/" ++ lit n))
  | photo_message _ | callback _ => raise AttributeError
  end.

(** [update.message.photo] *)
Definition message_photo (u : Update) : M (list str) :=
  match u with
  | photo_message l => mret l
  | text_message _ | command _ => mret []
  | callback _ => raise AttributeError
  end.

(** ** Handlers *)

Section Handlers.

Variable bot : Bot.

(** Awaiting a Bot API call: it is recorded, and raises or returns as the
    platform decides. *)
Definition await (c : Call) : M unit :=
  fun w => match raises bot (trace w) c with
           | Some e => (inl (TelegramError e), logged c w)
           | None => (inr tt, logged c w)
           end.

(** [(await context.bot.get_chat_member(chat_id, user_id)).status] *)
Definition await_member_status (chat_id user_id : Z) : M str :=
  fun w => match chat_member_status bot (trace w) chat_id user_id with
           | inl e => (inl (TelegramError e),
                       logged (get_chat_member chat_id user_id) w)
           | inr s => (inr s, logged (get_chat_member chat_id user_id) w)
           end.

(** [await update.message.reply_text(m, reply_markup=kb)] *)
Definition message_reply_text (u : Update) (m : Msg) (kb : list Button)
  : M unit :=
  if has_message u then await (reply_text m kb) else raise AttributeError.

(** [await update.message.reply_photo(photo, caption=m, reply_markup=kb)] *)
Definition message_reply_photo (u : Update) (photo : option str) (m : Msg)
    (kb : list Button) : M unit :=
  if has_message u then await (reply_photo photo m kb)
  else raise AttributeError.

(** [await update.callback_query.answer()] *)
Definition query_answer (u : Update) : M unit :=
  if has_callback_query u then await answer else raise AttributeError.

(** [await update.callback_query.message.edit_text(m, reply_markup=kb)] *)
Definition query_edit_text (u : Update) (m : Msg) (kb : list Button)
  : M unit :=
  if has_callback_query u then await (edit_text m kb)
  else raise AttributeError.

(** [await update.callback_query.message.reply_text(m, reply_markup=kb)] *)
Definition query_reply_text (u : Update) (m : Msg) (kb : list Button)
  : M unit :=
  if has_callback_query u then await (reply_text m kb)
  else raise AttributeError.

(** [await update.callback_query.message.reply_photo(...)] *)
Definition query_reply_photo (u : Update) (photo : option str) (m : Msg)
    (kb : list Button) : M unit :=
  if has_callback_query u then await (reply_photo photo m kb)
  else raise AttributeError.

Definition new_post (u : Update) : M State :=
  put_post fresh_post;;
  (if has_message u
   then message_reply_text u new_post_prompt
          [callback_button "skip_image"; callback_button "cancel"]
   else query_edit_text u new_post_prompt
          [callback_button "skip_image"; callback_button "cancel"]);;
  mret UPLOADING_IMAGE.

Definition ask_for_title (u : Update) : M State :=
  (if has_callback_query u
   then query_edit_text u title_prompt [callback_button "cancel"]
   else message_reply_text u title_prompt [callback_button "cancel"]);;
  mret ENTERING_TITLE.

Definition handle_image (u : Update) : M State :=
  photos ← message_photo u;
  match photos with
  | [] => mret tt
  | _ :: _ =>
      photo ← index_last photos;
      update_post (set_image (Some photo));;
      message_reply_text u image_received []
  end;;
  ask_for_title u.

Definition skip_image (u : Update) : M State :=
  query_answer u;;
  update_post (set_image None);;
  ask_for_title u.

Definition ask_for_description (u : Update) : M State :=
  message_reply_text u description_prompt
    [callback_button "skip_description"; callback_button "cancel"];;
  mret ENTERING_DESCRIPTION.

Definition handle_title (u : Update) : M State :=
  title ← message_text_strip u;
  if 200 <? length title then
    message_reply_text u title_too_long [];;
    mret ENTERING_TITLE
  else
    update_post (set_title (Some title));;
    message_reply_text u title_saved [];;
    ask_for_description u.

Definition ask_for_url (u : Update) : M State :=
  (if has_callback_query u
   then query_edit_text u url_prompt
          [callback_button "skip_url"; callback_button "cancel"]
   else message_reply_text u url_prompt
          [callback_button "skip_url"; callback_button "cancel"]);;
  mret ENTERING_URL.

Definition handle_description (u : Update) : M State :=
  description ← message_text_strip u;
  if 1000 <? length description then
    message_reply_text u description_too_long [];;
    mret ENTERING_DESCRIPTION
  else
    update_post (set_description (Some description));;
    message_reply_text u description_saved [];;
    ask_for_url u.

Definition skip_description (u : Update) : M State :=
  query_answer u;;
  update_post (set_description None);;
  ask_for_url u.

(** The keyboard row added in front when [post['url']] is set. *)
Definition url_row (post : Post) : list Button :=
  if truthy (url post) then [url_button (button_text post) (url post)]
  else [].

Definition show_preview (u : Update) : M State :=
  post ← get_post;
  n ← get_chat_count;
  let preview_text :=
    post_preview (if truthy (title post) then title post else None)
                 (if truthy (description post) then description post
                  else None)
                 n (truthy (image post)) (truthy (url post)) in
  let keyboard :=
    url_row post ++ [callback_button "confirm_send"; callback_button "cancel"]
  in
  (if truthy (image post) then
     if has_callback_query u
     then query_reply_photo u (image post) preview_text keyboard
     else message_reply_photo u (image post) preview_text keyboard
   else
     if has_callback_query u
     then query_edit_text u preview_text keyboard
     else message_reply_text u preview_text keyboard);;
  mret PREVIEW.

Definition handle_url (u : Update) : M State :=
  text ← message_text_strip u;
  if negb (contains bar text) then
    message_reply_text u invalid_format [];;
    mret ENTERING_URL
  else
    let parts := split1 bar text in
    part0 ← index parts 0;
    let url := strip part0 in
    button_text ← (if 1 <? length parts
                   then part1 ← index parts 1; mret (strip part1)
                   else mret (lit "Click Here"));
    if negb (startswith (lit "http://") url
             || startswith (lit "https://") url) then
      message_reply_text u invalid_url [];;
      mret ENTERING_URL
    else
      update_post (set_url (Some url));;
      update_post (set_button_text (Some button_text));;
      message_reply_text u button_saved [];;
      show_preview u.

Definition skip_url (u : Update) : M State :=
  query_answer u;;
  update_post (set_url None);;
  update_post (set_button_text None);;
  show_preview u.

(** The loop variables of [confirm_send]. *)
Record Tally := {
  success_count : nat;
  failed_count : nat;
  failed_chats : list str
}.

Definition tally0 : Tally :=
  {| success_count := 0; failed_count := 0; failed_chats := [] |}.
Definition succeeded (t : Tally) : Tally :=
  {| success_count := success_count t + 1; failed_count := failed_count t;
     failed_chats := failed_chats t |}.
Definition failed (entry : str) (t : Tally) : Tally :=
  {| success_count := success_count t; failed_count := failed_count t + 1;
     failed_chats := failed_chats t ++ [entry] |}.

Definition nl : char := 10%N.

(** The [message_text] built for each destination. *)
Definition message_text (post : Post) : str :=
  (if truthy (title post)
   then lit "<b>" ++ fmt (title post) ++ lit "</b>" ++ [nl; nl] else [])
  ++ (if truthy (description post) then fmt (description post) else []).

(** The [reply_markup] built for each destination. *)
Definition reply_markup (post : Post) : option Button :=
  if truthy (url post) then Some (url_button (button_text post) (url post))
  else None.

Definition is_admin_status (status : str) : bool :=
  bool_decide (status ∈ [lit "administrator"; lit "creator"]).

(** The body of the [for] loop for one item of the registry. The counters
    are only changed by the last statement of each path through the [try]
    block, so the [except] block sees them as they were on entry. *)
Definition broadcast_to (post : Post) (chat : Z * ChatInfo) (t : Tally)
  : M Tally :=
  let '(chat_id, chat_info) := chat in
  try_except
    (status ← await_member_status chat_id (id bot);
     if negb (is_admin_status status) then
       mret (failed (chat_title chat_info ++ lit " (not admin)") t)
     else
       (if truthy (image post)
        then await (send_photo chat_id (image post) (message_text post)
                               (reply_markup post))
        else await (send_message chat_id (message_text post)
                                 (reply_markup post)));;
       mret (succeeded t))
    (fun e =>
       mret (failed (chat_title chat_info ++ lit " ("
                     ++ take 30 (str_exn e) ++ lit ")") t)).

(** [for chat_id, chat_info in chats.items(): ...] *)
Fixpoint broadcast_loop (post : Post) (items : list (Z * ChatInfo))
    (t : Tally) : M Tally :=
  match items with
  | [] => mret t
  | chat :: rest =>
      t' ← broadcast_to post chat t;
      broadcast_loop post rest t'
  end.

(** The result message: the counts over [len(chats)], the first five
    failures and the number of those left out. *)
Definition result_message (t : Tally) (total : nat) : Msg :=
  broadcast_complete (success_count t) (failed_count t) total
    (take 5 (failed_chats t))
    (if 5 <? length (failed_chats t)
     then Some (length (failed_chats t) - 5) else None).

Definition confirm_send (u : Update) : M State :=
  query_answer u;;
  post ← get_post;
  chats ← get_all_chats;
  match chats with
  | [] =>
      query_reply_text u no_chats_available [];;
      mret END
  | _ :: _ =>
      query_reply_text u (broadcasting (length chats)) [];;
      t ← broadcast_loop post chats tally0;
      await (edit_text (result_message t (length chats)) []);;
      clear_user_data;;
      mret END
  end.

Definition cancel (u : Update) : M State :=
  (if has_callback_query u then
     query_answer u;;
     query_edit_text u operation_cancelled []
   else
     message_reply_text u operation_cancelled []);;
  clear_user_data;;
  mret END.

End Handlers.

(** ** The conversation handler of [main] *)

Inductive Handler :=
| h_new_post | h_handle_image | h_skip_image | h_handle_title
| h_handle_description | h_skip_description | h_handle_url | h_skip_url
| h_confirm_send | h_cancel.

Definition run (bot : Bot) (h : Handler) : Update -> M State :=
  match h with
  | h_new_post => new_post bot
  | h_handle_image => handle_image bot
  | h_skip_image => skip_image bot
  | h_handle_title => handle_title bot
  | h_handle_description => handle_description bot
  | h_skip_description => skip_description bot
  | h_handle_url => handle_url bot
  | h_skip_url => skip_url bot
  | h_confirm_send => confirm_send bot
  | h_cancel => cancel bot
  end.

(** How a handler is registered. A callback pattern [^lit$] is kept as
    its literal [lit]. *)
Inductive Filter :=
| CommandHandler (name : string)
| CallbackQueryHandler (pattern : string)
| MessageHandler_PHOTO
| MessageHandler_TEXT.   (* filters.TEXT & ~filters.COMMAND *)

(** [re.match('^lit$', data)]: [$] also matches before a final newline. *)
Definition re_match (pattern data : string) : bool :=
  String.eqb data pattern
  || String.eqb data (pattern ++ String (ascii_of_nat 10) EmptyString).

(** [s.lower()] on the name of a command, which is made of ASCII
    letters, digits and underscores. *)
Definition lower_ascii (a : ascii) : ascii :=
  let n := nat_of_ascii a in
  if (65 <=? n) && (n <=? 90) then ascii_of_nat (n + 32) else a.

Fixpoint lower (s : string) : string :=
  match s with
  | EmptyString => EmptyString
  | String a s' => String (lower_ascii a) (lower s')
  end.

(** Whether a registered handler accepts an update. A command handler
    compares the name received, in lower case, with its own;
    [filters.PHOTO] and [filters.TEXT] are the truth values of
    [message.photo] and [message.text], so an empty list of sizes and an
    empty text are not accepted. *)
Definition check_update (f : Filter) (u : Update) : bool :=
  match f, u with
  | CommandHandler name, command n => String.eqb (lower n) name
  | CallbackQueryHandler pattern, callback data => re_match pattern data
  | MessageHandler_PHOTO, photo_message (_ :: _) => true
  | MessageHandler_TEXT, text_message (_ :: _) => true
  | _, _ => false
  end.

Definition entry_points : list (Filter * Handler) :=
  [ (CommandHandler "newpost", h_new_post);
    (CallbackQueryHandler "cmd_newpost", h_new_post) ].

Definition states (s : State) : list (Filter * Handler) :=
  match s with
  | UPLOADING_IMAGE =>
      [ (MessageHandler_PHOTO, h_handle_image);
        (CallbackQueryHandler "skip_image", h_skip_image);
        (CallbackQueryHandler "cancel", h_cancel) ]
  | ENTERING_TITLE =>
      [ (MessageHandler_TEXT, h_handle_title);
        (CallbackQueryHandler "cancel", h_cancel) ]
  | ENTERING_DESCRIPTION =>
      [ (MessageHandler_TEXT, h_handle_description);
        (CallbackQueryHandler "skip_description", h_skip_description);
        (CallbackQueryHandler "cancel", h_cancel) ]
  | ENTERING_URL =>
      [ (MessageHandler_TEXT, h_handle_url);
        (CallbackQueryHandler "skip_url", h_skip_url);
        (CallbackQueryHandler "cancel", h_cancel) ]
  | PREVIEW =>
      [ (CallbackQueryHandler "confirm_send", h_confirm_send);
        (CallbackQueryHandler "cancel", h_cancel) ]
  | SELECTING_ACTION | END => []
  end.

Definition fallbacks : list (Filter * Handler) :=
  [ (CommandHandler "cancel", h_cancel);
    (CallbackQueryHandler "cancel", h_cancel) ].

(** The first registered handler whose filter accepts the update. *)
Fixpoint first_match (hs : list (Filter * Handler)) (u : Update)
  : option Handler :=
  match hs with
  | [] => None
  | (f, h) :: hs' => if check_update f u then Some h else first_match hs' u
  end.

(** The handler the conversation picks: an entry point when no
    conversation is running, else a handler of the current state, else a
    fallback. *)
Definition find_handler (conv : option State) (u : Update) : option Handler :=
  match conv with
  | None => first_match entry_points u
  | Some s => first_match (states s ++ fallbacks) u
  end.

(** One update through the conversation handler. The state returned by
    the handler becomes the state of the conversation, [END] closes it,
    and a handler that raises leaves it where it was. An update no
    handler accepts is left to the handlers registered after this one,
    which do not return a conversation state. *)
Definition conversation_update (bot : Bot) (conv : option State)
    (u : Update) (w : World) : option State * World :=
  match find_handler conv u with
  | None => (conv, w)
  | Some h =>
      match run bot h u w with
      | (inl _, w') => (conv, w')
      | (inr END, w') => (None, w')
      | (inr s, w') => (Some s, w')
      end
  end.

(** ** The words of the specification, for comparison *)

(** The part of [s] before the first [sep], and the part after it when
    there is one. *)
Fixpoint split_first (sep : char) (s : str) : str * option str :=
  match s with
  | [] => ([], None)
  | c :: s' =>
      if (c =? sep)%N then ([], Some s')
      else let '(l, r) := split_first sep s' in (c :: l, r)
  end.

(** "split on first [|]; left part trimmed is [url]" *)
Definition spec_url (input : str) : str :=
  strip (fst (split_first bar input)).

(** "right part trimmed is [buttonText]" *)
Definition spec_right (input : str) : str :=
  strip (default [] (snd (split_first bar input))).

(** "(default ["Click Here"] if the right side is empty after trim)" *)
Definition spec_button_text (input : str) : str :=
  match spec_right input with
  | [] => lit "Click Here"
  | _ :: _ => spec_right input
  end.

(** The Draft invariant: [buttonText] is present iff [url] is. *)
Definition draft_invariant (p : Post) : Prop :=
  is_Some (button_text p) <-> is_Some (url p).

(** The invariant on the session: it holds of the Draft, when there is
    one. *)
Definition session_invariant (w : World) : Prop :=
  forall p, user_data w !! "post"%string = Some p -> draft_invariant p.

(** ** Platforms and inputs used in the examples *)

(** A platform on which every call returns and the bot administers every
    chat. *)
Definition friendly_bot : Bot :=
  {| id := 7;
     chat_member_status := fun _ _ _ => inr (lit "administrator");
     raises := fun _ _ => None |}.

(** A platform on which the bot is a plain member of chat 2 and
    administers the others. *)
Definition member_of_2_bot : Bot :=
  {| id := 7;
     chat_member_status := fun _ chat_id _ =>
       if (chat_id =? 2)%Z then inr (lit "member")
       else inr (lit "administrator");
     raises := fun _ _ => None |}.

(** A platform on which the bot administers every chat and every send to
    chat 1 fails with a long message. *)
Definition failing_1_bot : Bot :=
  {| id := 7;
     chat_member_status := fun _ _ _ => inr (lit "administrator");
     raises := fun _ c =>
       match c with
       | send_message 1 _ _ | send_photo 1 _ _ _ =>
           Some (lit "Forbidden: bot was kicked from the supergroup chat")
       | _ => None
       end |}.

Definition chat_info (name : string) : ChatInfo :=
  {| chat_title := lit name; chat_type := lit "group";
     added_at := lit "2024-01-01T00:00:00" |}.

Definition hello_post : Post := set_title (Some (lit "Hello")) fresh_post.

Definition world_with (p : Post) (cs : list (Z * ChatInfo)) : World :=
  {| user_data := {[ "post"%string := p ]}; chats := cs; trace := [] |}.

(** ** Vocabulary of the statements *)

(** The call that delivers [post] to a destination. *)
Definition delivery (post : Post) (chat_id : Z) : Call :=
  if truthy (image post)
  then send_photo chat_id (image post) (message_text post) (reply_markup post)
  else send_message chat_id (message_text post) (reply_markup post).

(** The failure entry of a destination that raised [e]. *)
Definition error_entry (info : ChatInfo) (e : str) : str :=
  chat_title info ++ lit " (" ++ take 30 e ++ lit ")".

(** The failure entry of a destination the bot does not administer. *)
Definition not_admin_entry (info : ChatInfo) : str :=
  chat_title info ++ lit " (not admin)".

(** Calls made to a destination, as opposed to the operator. *)
Definition to_destination (c : Call) : bool :=
  match c with
  | get_chat_member _ _ | send_photo _ _ _ _ | send_message _ _ _ => true
  | _ => false
  end.

(** The destinations whose membership was queried, in order. *)
Definition queried (calls : list Call) : list Z :=
  omap (fun c => match c with
                 | get_chat_member chat_id _ => Some chat_id
                 | _ => None
                 end) calls.

(** The destinations a send was addressed to, in order. *)
Definition sent_to (calls : list Call) : list Z :=
  omap (fun c => match c with
                 | send_photo chat_id _ _ _ | send_message chat_id _ _ =>
                     Some chat_id
                 | _ => None
                 end) calls.

(** The calls a handler added to the trace of [w]. *)
Definition new_calls (w w' : World) : list Call :=
  drop (length (trace w)) (trace w').

(** "[url] must start with [http://] or [https://]" *)
Definition valid_scheme (url : str) : bool :=
  startswith (lit "http://") url || startswith (lit "https://") url.

(** The keyboards of the prompts. *)
Definition description_keyboard : list Button :=
  [callback_button "skip_description"; callback_button "cancel"].

(** The platform never fails a call addressed to the operator: answering
    the button press and sending or editing a message in the operator's
    chat return. Calls to destinations may still fail. *)
Definition operator_calls_return (bot : Bot) : Prop :=
  forall calls c, to_destination c = false -> raises bot calls c = None.

(** A computation that keeps the session invariant, however it ends. *)
Definition preserves {A} (m : M A) : Prop :=
  forall w r w', session_invariant w -> m w = (r, w') -> session_invariant w'.

(** A computation that leaves the user data alone, however it ends. *)
Definition read_only {A} (m : M A) : Prop :=
  forall w r w', m w = (r, w') -> user_data w' = user_data w.

(** ** The chat registry and its trackers *)

(** [update.effective_chat], by the attributes the trackers read. *)
Module Chat.
Record t := { id : Z; title : str; type : str }.
End Chat.

Definition with_chats (cs : list (Z * ChatInfo)) (w : World) : World :=
  {| user_data := user_data w; chats := cs; trace := trace w |}.

(** [d[k] = v] on a dict: a key that is there keeps its place and gets the
    new value, a new key goes to the end. *)
Fixpoint dict_set (k : Z) (v : ChatInfo) (d : list (Z * ChatInfo))
  : list (Z * ChatInfo) :=
  match d with
  | [] => [(k, v)]
  | (k', v') :: d' =>
      if (k' =? k)%Z then (k, v) :: d' else (k', v') :: dict_set k v d'
  end.

(** [k in d] *)
Definition dict_contains (k : Z) (d : list (Z * ChatInfo)) : bool :=
  existsb (fun kv => (kv.1 =? k)%Z) d.

(** [del d[k]] *)
Fixpoint dict_del (k : Z) (d : list (Z * ChatInfo)) : list (Z * ChatInfo) :=
  match d with
  | [] => []
  | (k', v') :: d' =>
      if (k' =? k)%Z then d' else (k', v') :: dict_del k d'
  end.

(** [d.get(k)] *)
Fixpoint dict_get (k : Z) (d : list (Z * ChatInfo)) : option ChatInfo :=
  match d with
  | [] => None
  | (k', v') :: d' => if (k' =? k)%Z then Some v' else dict_get k d'
  end.

(** [ChatStorage.add_chat], with [now] for [datetime.now().isoformat()].
    Writing the file and the log line are left out: [_save_chats] catches
    its own errors, so neither changes what the method returns or the
    dict. *)
Definition add_chat (chat_id : Z) (title type now : str) : M unit :=
  fun w =>
    (inr tt,
     with_chats (dict_set chat_id
                   {| chat_title := title; chat_type := type;
                      added_at := now |} (chats w)) w).

(** [ChatStorage.remove_chat] *)
Definition remove_chat (chat_id : Z) : M unit :=
  fun w =>
    if dict_contains chat_id (chats w)
    then (inr tt, with_chats (dict_del chat_id (chats w)) w)
    else (inr tt, w).

(** The text [track_chat] sends to a chat it has registered. *)
Definition welcome : str :=
  [128075%N] ++ lit " <b>Hello!</b>" ++ [nl; nl]
  ++ lit "Thanks for adding me to this chat!" ++ [nl; nl]
  ++ lit "I'm now ready to broadcast messages here. "
  ++ lit "Make sure I have admin rights to post messages." ++ [nl; nl]
  ++ lit "The bot owner can now include this chat in broadcasts! "
  ++ [128225%N].

(** The update [track_chat] gets: a message in a private chat or a group,
    for which [update.message] is set, or a post in a channel, which
    arrives as [update.channel_post], leaves [update.message] unset and
    has a chat of type ['channel']. *)
Inductive ChatUpdate :=
| chat_message (chat : Chat.t)
| channel_post (id : Z) (title : str).

(** [update.effective_chat] *)
Definition effective_chat (u : ChatUpdate) : Chat.t :=
  match u with
  | chat_message chat => chat
  | channel_post id title =>
      {| Chat.id := id; Chat.title := title; Chat.type := lit "channel" |}
  end.

(** [track_chat]. [update.message.reply_text] sends to the chat of the
    message, which is [update.effective_chat], so the call is recorded as
    a [send_message] to that chat; without [update.message] the attribute
    access raises inside the [try] block and no call is made. *)
Definition track_chat (bot : Bot) (u : ChatUpdate) (now : str) : M unit :=
  let chat := effective_chat u in
  if bool_decide (Chat.type chat
                  ∈ [lit "group"; lit "supergroup"; lit "channel"])
  then
    add_chat (Chat.id chat) (Chat.title chat) (Chat.type chat) now;;
    try_except
      (match u with
       | chat_message _ =>
           await bot (send_message (Chat.id chat) welcome None)
       | channel_post _ _ => raise AttributeError
       end)
      (fun _ => mret tt)
  else mret tt.

(** [track_chat_removal], with [new_status] for
    [update.my_chat_member.new_chat_member.status]. *)
Definition track_chat_removal (chat : Chat.t) (new_status : str) : M unit :=
  if bool_decide (new_status ∈ [lit "left"; lit "kicked"])
  then remove_chat (Chat.id chat)
  else mret tt.

(** The keys of the registry are distinct, as those of a dict are. *)
Definition unique_keys (d : list (Z * ChatInfo)) : Prop := NoDup d.*1.

(** ** Runs of the conversation *)

(** A sequence of updates through the conversation handler, one after the
    other. *)
Fixpoint conversation_run (bot : Bot) (conv : option State)
    (updates : list Update) (w : World) : option State * World :=
  match updates with
  | [] => (conv, w)
  | u :: rest =>
      let '(conv', w') := conversation_update bot conv u w in
      conversation_run bot conv' rest w'
  end.

(** The states one update can lead to from a state: the wizard stays,
    moves one step forward, or ends. *)
Definition successors (conv : option State) : list (option State) :=
  match conv with
  | None => [None; Some UPLOADING_IMAGE]
  | Some UPLOADING_IMAGE => [conv; Some ENTERING_TITLE; None]
  | Some ENTERING_TITLE => [conv; Some ENTERING_DESCRIPTION; None]
  | Some ENTERING_DESCRIPTION => [conv; Some ENTERING_URL; None]
  | Some ENTERING_URL => [conv; Some PREVIEW; None]
  | Some _ => [conv; None]
  end.

(** The states a handler can return. *)
Definition returns_of (h : Handler) : list State :=
  match h with
  | h_new_post => [UPLOADING_IMAGE]
  | h_handle_image | h_skip_image => [ENTERING_TITLE]
  | h_handle_title => [ENTERING_TITLE; ENTERING_DESCRIPTION]
  | h_handle_description => [ENTERING_DESCRIPTION; ENTERING_URL]
  | h_skip_description => [ENTERING_URL]
  | h_handle_url => [ENTERING_URL; PREVIEW]
  | h_skip_url => [PREVIEW]
  | h_confirm_send | h_cancel => [END]
  end.

(** A computation that returns only states of [S]. *)
Definition returns_in (S : list State) (m : M State) : Prop :=
  forall w s w', m w = (inr s, w') -> s ∈ S.

(** A computation that keeps a property of the user data, however it
    ends. *)
Definition maintains (P : gmap string Post -> Prop) {A} (m : M A) : Prop :=
  forall w r w', P (user_data w) -> m w = (r, w') -> P (user_data w').

(** The bounds the wizard checks before it stores a field: a title is
    trimmed and has at most 200 characters, a description at most 1000,
    and a url starts with [http://] or [https://]. *)
Definition draft_bounds (p : Post) : Prop :=
  (forall s, title p = Some s -> length s <= 200 /\ strip s = s) /\
  (forall s, description p = Some s -> length s <= 1000 /\ strip s = s) /\
  (forall s, url p = Some s -> valid_scheme s = true).

(** The bounds hold of the Draft, when the session has one. *)
Definition bounded (d : gmap string Post) : Prop :=
  forall p, d !! "post"%string = Some p -> draft_bounds p.

(** The session has no Draft. *)
Definition no_draft (d : gmap string Post) : Prop :=
  d !! "post"%string = None.


(** A platform on which no call raises. *)
Definition calls_return (bot : Bot) : Prop :=
  forall calls c, raises bot calls c = None.

(** The keyboards of the other prompts. *)
Definition title_keyboard : list Button := [callback_button "cancel"].
Definition url_keyboard : list Button :=
  [callback_button "skip_url"; callback_button "cancel"].
Definition confirm_keyboard : list Button :=
  [callback_button "confirm_send"; callback_button "cancel"].

(** The preview [show_preview] builds from a Draft and the size of the
    registry, and the call that shows it: a photo with the preview as
    caption when the Draft has an image, else a text, which replaces the
    prompt when the update is a button press. *)
Definition preview_message (p : Post) (chat_count : nat) : Msg :=
  post_preview (if truthy (title p) then title p else None)
               (if truthy (description p) then description p else None)
               chat_count (truthy (image p)) (truthy (url p)).

Definition preview_keyboard (p : Post) : list Button :=
  url_row p ++ confirm_keyboard.

Definition preview_call (u : Update) (p : Post) (chat_count : nat) : Call :=
  if truthy (image p)
  then reply_photo (image p) (preview_message p chat_count)
         (preview_keyboard p)
  else if has_callback_query u
       then edit_text (preview_message p chat_count) (preview_keyboard p)
       else reply_text (preview_message p chat_count) (preview_keyboard p).

(** The Draft after a complete pass through the wizard. *)
Definition composed_post (photo title description line : str) : Post :=
  {| image := Some photo; title := Some (strip title);
     description := Some (strip description);
     url := Some (spec_url line); button_text := Some (spec_right line) |}.

(** A platform on which the bot has an administrator's status in every
    chat, whenever it is asked. *)
Definition administers_all (bot : Bot) : Prop :=
  forall calls chat_id,
    exists status,
      chat_member_status bot calls chat_id (id bot) = inr status /\
      is_admin_status status = true.

(** [entry] is a failure entry of the destination [item]. *)
Definition failure_of (item : Z * ChatInfo) (entry : str) : Prop :=
  entry = not_admin_entry item.2 \/ exists e, entry = error_entry item.2 e.

(** "Trim whitespace": [s] is [t] without its leading and its trailing
    white space. *)
Definition trimmed_of (t s : str) : Prop :=
  exists l r,
    t = l ++ s ++ r /\
    forallb isspace l = true /\ forallb isspace r = true /\
    (forall c, head s = Some c -> isspace c = false) /\
    (forall c, last s = Some c -> isspace c = false).

(** A platform on which the bot is a plain member of every chat. *)
Definition member_bot : Bot :=
  {| id := 7;
     chat_member_status := fun _ _ _ => inr (lit "member");
     raises := fun _ _ => None |}.

Definition seven_chats : list (Z * ChatInfo) :=
  [(1%Z, chat_info "A"); (2%Z, chat_info "B"); (3%Z, chat_info "C");
   (4%Z, chat_info "D"); (5%Z, chat_info "E"); (6%Z, chat_info "F");
   (7%Z, chat_info "G")].

(** The world in which [confirm_send] starts its loop: the button press
    answered and the operator told that the broadcast is under way. *)
Definition broadcast_start (w : World) : World :=
  logged (reply_text (broadcasting (length (chats w))) []) (logged answer w).

(** * Properties *)

(** ** Strings *)

Example strip_example : strip (lit "  a b ") = lit "a b".
Proof. reflexivity. Qed.

Example split1_example :
  split1 bar (lit "a|b|c") = [lit "a"; lit "b|c"].
Proof. reflexivity. Qed.

Example split1_trailing : split1 bar (lit "a|") = [lit "a"; []].
Proof. reflexivity. Qed.

Lemma isspace_bar : isspace bar = false.
Proof. reflexivity. Qed.

Lemma lstrip_idem s : lstrip (lstrip s) = lstrip s.
Proof.
  induction s as [|c s IH]; simpl; [done|].
  destruct (isspace c) eqn:E; [done|]. simpl. by rewrite E.
Qed.

Lemma lstrip_blank s : forallb isspace s = true -> lstrip s = [].
Proof.
  induction s as [|c s IH]; simpl; [done|].
  intros [-> Hs]%andb_true_iff. auto.
Qed.

Lemma rstrip_blank s : forallb isspace s = true -> rstrip s = [].
Proof.
  induction s as [|c s IH]; simpl; [done|].
  intros [-> Hs]%andb_true_iff. by rewrite IH.
Qed.

Lemma rstrip_nil_blank s : rstrip s = [] -> forallb isspace s = true.
Proof.
  induction s as [|c s IH]; simpl; [done|].
  destruct (rstrip s) eqn:E; [|done].
  destruct (isspace c); [auto|done].
Qed.

Lemma strip_blank s : forallb isspace s = true -> strip s = [].
Proof. intros H. unfold strip. by rewrite lstrip_blank. Qed.

Lemma rstrip_cons_nonspace c s :
  isspace c = false -> rstrip (c :: s) = c :: rstrip s.
Proof. intros H. simpl. rewrite H. by destruct (rstrip s). Qed.

Lemma rstrip_cons_nonblank c s :
  rstrip s <> [] -> rstrip (c :: s) = c :: rstrip s.
Proof. intros H. simpl. by destruct (rstrip s). Qed.

Lemma rstrip_app x y : rstrip y <> [] -> rstrip (x ++ y) = x ++ rstrip y.
Proof.
  intros H. induction x as [|c x IH]; simpl; [done|].
  rewrite IH. destruct (x ++ rstrip y) eqn:E; [|done].
  by apply app_eq_nil in E as [_ ?].
Qed.

Lemma rstrip_idem s : rstrip (rstrip s) = rstrip s.
Proof.
  induction s as [|c s IH]; simpl; [done|].
  destruct (rstrip s) as [|d r] eqn:E.
  - destruct (isspace c) eqn:Ec; simpl; [done|]. by rewrite Ec.
  - rewrite rstrip_cons_nonblank; rewrite IH; [done|done].
Qed.

Lemma lstrip_rstrip s : lstrip (rstrip s) = rstrip (lstrip s).
Proof.
  induction s as [|c s IH]; [done|].
  destruct (isspace c) eqn:Ec.
  - simpl. rewrite Ec. destruct (rstrip s) as [|d r] eqn:E.
    + simpl. apply rstrip_nil_blank in E.
      by rewrite lstrip_blank.
    + simpl lstrip at 1. rewrite Ec. by rewrite <- IH.
  - rewrite rstrip_cons_nonspace by done.
    change (lstrip (c :: rstrip s)) with
      (if isspace c then lstrip (rstrip s) else c :: rstrip s).
    change (lstrip (c :: s)) with (if isspace c then lstrip s else c :: s).
    rewrite Ec. by rewrite rstrip_cons_nonspace.
Qed.

Lemma strip_lstrip s : strip (lstrip s) = strip s.
Proof. unfold strip. by rewrite lstrip_idem. Qed.

Lemma strip_rstrip s : strip (rstrip s) = strip s.
Proof. unfold strip. by rewrite lstrip_rstrip, rstrip_idem. Qed.

Lemma lstrip_app_bar l r : lstrip (l ++ bar :: r) = lstrip l ++ bar :: r.
Proof.
  induction l as [|c l IH]; simpl; [done|].
  by destruct (isspace c).
Qed.

Lemma contains_lstrip c s : contains c (lstrip s) = true -> contains c s = true.
Proof.
  induction s as [|d s IH]; simpl; [done|].
  destruct (isspace d); simpl; [|done].
  intros H. rewrite IH by done. apply orb_true_r.
Qed.

Lemma contains_rstrip c s : contains c (rstrip s) = true -> contains c s = true.
Proof.
  induction s as [|d s IH]; simpl; [done|].
  destruct (rstrip s) as [|e r] eqn:E.
  - destruct (isspace d); simpl; [done|]. rewrite orb_false_r.
    intros ->. done.
  - intros [->|H]%orb_true_iff; [done|].
    rewrite IH by done. apply orb_true_r.
Qed.

Lemma contains_strip c s : contains c (strip s) = true -> contains c s = true.
Proof. intros H. by apply contains_lstrip, contains_rstrip. Qed.

(** An input without the separator has none after trimming. *)
Lemma strip_lacks c s : contains c s = false -> contains c (strip s) = false.
Proof.
  intros H. destruct (contains c (strip s)) eqn:E; [|done].
  apply contains_strip in E. congruence.
Qed.

(** An input with a separator is its left part, the separator and its
    right part. *)
Lemma split_first_app sep s :
  contains sep s = true ->
  exists l r, split_first sep s = (l, Some r) /\ s = l ++ sep :: r /\
              contains sep l = false.
Proof.
  induction s as [|c s IH]; simpl; [done|].
  rewrite N.eqb_sym. destruct (c =? sep)%N eqn:E; simpl.
  - intros _. apply N.eqb_eq in E as ->. by exists [], s.
  - intros (l & r & Hs & -> & Hl)%IH. rewrite Hs.
    exists (c :: l), r. simpl. rewrite N.eqb_sym, E. done.
Qed.

Lemma split1_app sep l r :
  contains sep l = false -> split1 sep (l ++ sep :: r) = [l; r].
Proof.
  induction l as [|c l IH]; simpl.
  - by rewrite N.eqb_refl.
  - rewrite N.eqb_sym. intros [E Hl]%orb_false_iff.
    rewrite E, IH by done. done.
Qed.

Lemma contains_lstrip_false c s :
  contains c s = false -> contains c (lstrip s) = false.
Proof.
  intros H. destruct (contains c (lstrip s)) eqn:E; [|done].
  apply contains_lstrip in E. congruence.
Qed.

(** Trimming the whole input and then splitting gives, after trimming the
    parts, what splitting the input and trimming its parts gives. *)
Lemma split1_strip s :
  contains bar s = true ->
  exists p0 p1, split1 bar (strip s) = [p0; p1] /\
                strip p0 = spec_url s /\ strip p1 = spec_right s.
Proof.
  intros (l & r & Hs & -> & Hl)%split_first_app.
  unfold spec_url, spec_right. rewrite Hs. simpl.
  unfold strip at 1. rewrite lstrip_app_bar.
  rewrite rstrip_app by (by rewrite rstrip_cons_nonspace).
  rewrite rstrip_cons_nonspace by done.
  rewrite split1_app by (by apply contains_lstrip_false).
  exists (lstrip l), (rstrip r).
  by rewrite strip_lstrip, strip_rstrip.
Qed.

(** ** The broadcast loop *)

Ltac split_ands := repeat match goal with |- _ /\ _ => split end.

Ltac unfold_m :=
  unfold update_post, get_post, put_post, clear_user_data, get_all_chats,
    get_chat_count, message_reply_text, message_reply_photo, query_answer,
    query_edit_text, query_reply_text, query_reply_photo, await,
    await_member_status, index, index_last, raise, try_except,
    mbind, M_bind, mret, M_ret in *.

Lemma is_admin_status_false status :
  status <> lit "administrator" -> status <> lit "creator" ->
  is_admin_status status = false.
Proof.
  intros H1 H2. unfold is_admin_status. apply bool_decide_eq_false.
  rewrite !elem_of_cons, elem_of_nil. tauto.
Qed.

(** What one turn of the loop does, by what the platform answers. *)
Lemma broadcast_to_cases bot post chat_id info t w :
  let w1 := logged (get_chat_member chat_id (id bot)) w in
  broadcast_to bot post (chat_id, info) t w =
    match chat_member_status bot (trace w) chat_id (id bot) with
    | inl e => (inr (failed (error_entry info e) t), w1)
    | inr status =>
        if is_admin_status status then
          match raises bot (trace w1) (delivery post chat_id) with
          | Some e => (inr (failed (error_entry info e) t),
                       logged (delivery post chat_id) w1)
          | None => (inr (succeeded t), logged (delivery post chat_id) w1)
          end
        else (inr (failed (not_admin_entry info) t), w1)
    end.
Proof.
  unfold broadcast_to, delivery, error_entry, not_admin_entry. unfold_m.
  destruct (chat_member_status bot (trace w) chat_id (id bot)) as [e|status];
    simpl; [done|].
  destruct (is_admin_status status); simpl; [|done].
  destruct (truthy (image post)); simpl;
    by destruct (raises bot _ _).
Qed.

(** One turn never raises, and counts its destination once. *)
Lemma broadcast_to_once bot post chat t w :
  exists t' w',
    broadcast_to bot post chat t w = (inr t', w') /\
    success_count t' + failed_count t' = success_count t + failed_count t + 1 /\
    length (failed_chats t') + success_count t' =
      length (failed_chats t) + success_count t + 1 /\
    user_data w' = user_data w /\ chats w' = chats w /\
    exists calls, trace w' = trace w ++ calls /\
                  queried calls = [chat.1] /\
                  (sent_to calls = [] \/ sent_to calls = [chat.1]).
Proof.
  destruct chat as [chat_id info]. rewrite broadcast_to_cases. simpl.
  destruct (chat_member_status bot (trace w) chat_id (id bot)) as [e|status].
  { eexists _, _. split; [done|]. simpl. rewrite length_app. simpl.
    repeat split; try lia. exists [get_chat_member chat_id (id bot)]. auto. }
  destruct (is_admin_status status).
  2:{ eexists _, _. split; [done|]. simpl. rewrite length_app. simpl.
      repeat split; try lia. exists [get_chat_member chat_id (id bot)]. auto. }
  assert (Hd : queried [get_chat_member chat_id (id bot); delivery post chat_id]
               = [chat_id] /\
               sent_to [get_chat_member chat_id (id bot); delivery post chat_id]
               = [chat_id]).
  { unfold delivery. by destruct (truthy (image post)). }
  destruct Hd as [Hq Hs].
  destruct (raises bot _ _) as [e|].
  - eexists _, _. split; [done|]. simpl. rewrite length_app. simpl.
    repeat split; try lia.
    exists [get_chat_member chat_id (id bot); delivery post chat_id].
    rewrite <- app_assoc. auto.
  - eexists _, _. split; [done|]. simpl.
    repeat split; try lia.
    exists [get_chat_member chat_id (id bot); delivery post chat_id].
    rewrite <- app_assoc. auto.
Qed.

Lemma broadcast_loop_cons bot post chat rest t w :
  broadcast_loop bot post (chat :: rest) t w =
    match broadcast_to bot post chat t w with
    | (inl e, w') => (inl e, w')
    | (inr t', w') => broadcast_loop bot post rest t' w'
    end.
Proof. reflexivity. Qed.

Lemma queried_app a b : queried (a ++ b) = queried a ++ queried b.
Proof. apply omap_app. Qed.

Lemma sent_to_app a b : sent_to (a ++ b) = sent_to a ++ sent_to b.
Proof. apply omap_app. Qed.

(** The loop never raises, runs over the whole registry, and counts each
    destination once. *)
Lemma broadcast_loop_total bot post items : forall t w,
  exists t' w',
    broadcast_loop bot post items t w = (inr t', w') /\
    success_count t' + failed_count t' =
      success_count t + failed_count t + length items /\
    length (failed_chats t') + success_count t' =
      length (failed_chats t) + success_count t + length items /\
    user_data w' = user_data w /\ chats w' = chats w /\
    exists calls, trace w' = trace w ++ calls /\
                  queried calls = items.*1 /\
                  sent_to calls `sublist_of` items.*1.
Proof.
  induction items as [|chat rest IH]; intros t w; simpl.
  - exists t, w. unfold_m. repeat split; try lia.
    exists []. by rewrite app_nil_r.
  - destruct (broadcast_to_once bot post chat t w)
      as (t1 & w1 & E1 & Hc1 & Hf1 & Hu1 & Hr1 & calls1 & Ht1 & Hq1 & Hs1).
    destruct (IH t1 w1)
      as (t2 & w2 & E2 & Hc2 & Hf2 & Hu2 & Hr2 & calls2 & Ht2 & Hq2 & Hs2).
    exists t2, w2. unfold mbind, M_bind. rewrite E1, E2.
    repeat split; try lia; try congruence.
    exists (calls1 ++ calls2). rewrite Ht2, Ht1, <- app_assoc.
    split; [done|]. rewrite queried_app, sent_to_app, Hq1, Hq2.
    split; [done|].
    destruct Hs1 as [->| ->]; simpl.
    + by apply sublist_cons.
    + by apply sublist_skip.
Qed.

(** ** [confirm_send] *)

(** [confirm_send] on a button press, by what the platform answers. *)
Lemma confirm_send_callback bot data w :
  let w1 := logged answer w in
  confirm_send bot (callback data) w =
    match raises bot (trace w) answer with
    | Some e => (inl (TelegramError e), w1)
    | None =>
        match user_data w !! "post"%string with
        | None => (inl (KeyError "post"), w1)
        | Some post =>
            match chats w with
            | [] =>
                match raises bot (trace w1) (reply_text no_chats_available [])
                with
                | Some e => (inl (TelegramError e),
                             logged (reply_text no_chats_available []) w1)
                | None => (inr END,
                           logged (reply_text no_chats_available []) w1)
                end
            | _ :: _ =>
                let c := reply_text (broadcasting (length (chats w))) [] in
                match raises bot (trace w1) c with
                | Some e => (inl (TelegramError e), logged c w1)
                | None =>
                    match broadcast_loop bot post (chats w) tally0
                            (logged c w1) with
                    | (inl e, w2) => (inl e, w2)
                    | (inr t, w2) =>
                        let c2 :=
                          edit_text (result_message t (length (chats w))) []
                        in
                        match raises bot (trace w2) c2 with
                        | Some e => (inl (TelegramError e), logged c2 w2)
                        | None => (inr END, with_user_data ∅ (logged c2 w2))
                        end
                    end
                end
            end
        end
    end.
Proof.
  unfold confirm_send. unfold_m. simpl.
  destruct (raises bot (trace w) answer); simpl; [done|].
  destruct (user_data w !! "post"%string) as [post|]; simpl; [|done].
  destruct (chats w) as [|chat rest] eqn:Hc; simpl.
  - by destruct (raises bot _ _).
  - destruct (raises bot _ _); [done|].
    match goal with
    | |- (let (_, _) := ?x in _) = _ => destruct x as [[e|t] w2]
    end; simpl; [done|].
    by destruct (raises bot _ _).
Qed.

(** Any other update has no [callback_query] to answer. *)
Lemma confirm_send_no_query bot u w :
  has_callback_query u = false ->
  confirm_send bot u w = (inl AttributeError, w).
Proof. intros H. unfold confirm_send. unfold_m. by rewrite H. Qed.

Lemma trace_logged c w : trace (logged c w) = trace w ++ [c].
Proof. done. Qed.

Lemma new_calls_app w w' calls :
  trace w' = trace w ++ calls -> new_calls w w' = calls.
Proof. intros H. unfold new_calls. rewrite H. by rewrite drop_app_length. Qed.

(** On a registry with destinations, a [confirm_send] that returns has
    cleared the user data and ended the conversation. *)
Lemma confirm_send_nonempty_clears bot u w s w' :
  chats w <> [] -> confirm_send bot u w = (inr s, w') ->
  s = END /\ user_data w' = ∅.
Proof.
  intros Hne. destruct u as [x|x|x|data];
    try (rewrite confirm_send_no_query by done; discriminate).
  rewrite confirm_send_callback. simpl.
  destruct (raises bot (trace w) answer); [discriminate|].
  destruct (user_data w !! "post"%string) as [post|]; [|discriminate].
  destruct (chats w) as [|chat rest]; [done|].
  destruct (raises bot _ _); [discriminate|].
  destruct (broadcast_loop bot post _ _ _) as [[e|t] w2]; [discriminate|].
  destruct (raises bot _ _); [discriminate|].
  intros [= <- <-]. done.
Qed.

(** C2, on the code: when the registry is empty, a [confirm_send] that
    returns has ended the conversation but has left the user data as it
    was, Draft included; the early return comes before
    [context.user_data.clear()]. *)
Theorem confirm_send_empty_registry_keeps_draft bot u w s w' :
  chats w = [] -> confirm_send bot u w = (inr s, w') ->
  s = END /\ user_data w' = user_data w /\
  is_Some (user_data w' !! "post"%string).
Proof.
  intros He. destruct u as [x|x|x|data];
    try (rewrite confirm_send_no_query by done; discriminate).
  rewrite confirm_send_callback. simpl.
  destruct (raises bot (trace w) answer); [discriminate|].
  destruct (user_data w !! "post"%string) as [post|] eqn:Hp; [|discriminate].
  rewrite He.
  destruct (raises bot _ _); [discriminate|].
  intros [= <- <-]. simpl. rewrite Hp. eauto.
Qed.

Lemma confirm_send_empty_registry_keeps_draft_witness :
  chats (world_with hello_post []) = [] /\
  confirm_send friendly_bot (callback "confirm_send")
    (world_with hello_post []) =
    (inr END,
     logged (reply_text no_chats_available [])
       (logged answer (world_with hello_post []))) /\
  user_data (logged (reply_text no_chats_available [])
               (logged answer (world_with hello_post [])))
    !! "post"%string = Some hello_post.
Proof.
  assert (E : confirm_send friendly_bot (callback "confirm_send")
                (world_with hello_post []) =
              (inr END,
               logged (reply_text no_chats_available [])
                 (logged answer (world_with hello_post [])))).
  { rewrite confirm_send_callback. reflexivity. }
  split; [reflexivity|]. split; [exact E|].
  destruct (confirm_send_empty_registry_keeps_draft friendly_bot
              (callback "confirm_send") (world_with hello_post []) END _
              eq_refl E) as (_ & Hu & _).
  reflexivity.
Defined.

(** C3: over a registry with destinations the loop never raises, whatever
    the destinations answer; it queries every destination once, in
    registry order, sends at most once to each, and ends with counts of
    successes and failures that add up to the size of the registry, one
    failure entry per failure. When the calls to the operator return,
    [confirm_send] reports these counts over that size. *)
Theorem broadcast_counts_add_up bot data w p :
  user_data w !! "post"%string = Some p ->
  chats w <> [] ->
  (forall w0, exists t w1,
     broadcast_loop bot p (chats w) tally0 w0 = (inr t, w1) /\
     success_count t + failed_count t = length (chats w) /\
     length (failed_chats t) = failed_count t /\
     queried (new_calls w0 w1) = (chats w).*1 /\
     sent_to (new_calls w0 w1) `sublist_of` (chats w).*1) /\
  (operator_calls_return bot ->
   exists t w',
     confirm_send bot (callback data) w = (inr END, w') /\
     last (trace w') =
       Some (edit_text (result_message t (length (chats w))) []) /\
     success_count t + failed_count t = length (chats w) /\
     length (failed_chats t) = failed_count t /\
     queried (new_calls w w') = (chats w).*1 /\
     sent_to (new_calls w w') `sublist_of` (chats w).*1).
Proof.
  intros Hp Hne. split.
  { intros w0.
    destruct (broadcast_loop_total bot p (chats w) tally0 w0)
      as (t & w1 & E & Hs & Hf & _ & _ & calls & Ht & Hq & Hsub).
    exists t, w1. rewrite (new_calls_app w0 w1 calls Ht).
    simpl in Hs, Hf. split_ands; try done; lia. }
  intros Hop. rewrite confirm_send_callback. simpl.
  rewrite Hp, !Hop by done.
  destruct (chats w) as [|chat rest] eqn:Hc; [done|].
  destruct (broadcast_loop_total bot p (chat :: rest) tally0
              (logged (reply_text (broadcasting (length (chat :: rest))) [])
                 (logged answer w)))
    as (t & w2 & E & Hs & Hf & _ & _ & calls & Ht & Hq & Hsub).
  rewrite E, Hop by done. simpl in Hs, Hf.
  exists t. eexists. split; [done|]. simpl.
  split; [by rewrite last_snoc|].
  split; [simpl in *; lia|]. split; [simpl in *; lia|].
  match goal with
  | |- context [new_calls w ?w3] =>
      assert (Htr : trace w3 =
                trace w ++ ([answer; reply_text (broadcasting
                                                   (S (length rest))) []]
                            ++ calls
                            ++ [edit_text (result_message t
                                             (S (length rest))) []]))
        by (simpl; rewrite Ht; simpl; by rewrite <- !app_assoc);
      rewrite (new_calls_app w w3 _ Htr)
  end.
  rewrite !queried_app, !sent_to_app. simpl.
  rewrite !app_nil_r. done.
Qed.

Lemma failing_1_bot_operator : operator_calls_return failing_1_bot.
Proof. intros calls c H. destruct c; try done; simpl in *; done. Qed.

Lemma broadcast_counts_add_up_witness :
  exists t w',
    confirm_send failing_1_bot (callback "confirm_send")
      (world_with hello_post [(1%Z, chat_info "A"); (2%Z, chat_info "B")])
    = (inr END, w') /\
    last (trace w') = Some (edit_text (result_message t 2) []) /\
    success_count t + failed_count t = 2 /\
    length (failed_chats t) = failed_count t.
Proof.
  assert (Hne : chats (world_with hello_post
                         [(1%Z, chat_info "A"); (2%Z, chat_info "B")]) <> [])
    by discriminate.
  destruct (broadcast_counts_add_up failing_1_bot "confirm_send"
              (world_with hello_post
                 [(1%Z, chat_info "A"); (2%Z, chat_info "B")])
              hello_post eq_refl Hne) as [_ Hreport].
  destruct (Hreport failing_1_bot_operator)
    as (t & w' & E & Hl & Hs & Hf & _).
  exists t, w'. auto.
Defined.

(** C9: with an empty registry [confirm_send] only answers the button
    press and tells the operator there are no chats: no membership is
    queried, nothing is sent and no report is made; when these two calls
    return, it returns [END]. *)
Theorem empty_registry_short_circuits bot u w r w' :
  chats w = [] -> confirm_send bot u w = (r, w') ->
  exists calls,
    trace w' = trace w ++ calls /\
    calls `prefix_of` [answer; reply_text no_chats_available []] /\
    queried calls = [] /\ sent_to calls = [] /\
    (has_callback_query u = true ->
     is_Some (user_data w !! "post"%string) ->
     raises bot (trace w) answer = None ->
     raises bot (trace w ++ [answer]) (reply_text no_chats_available [])
       = None ->
     r = inr END /\ calls = [answer; reply_text no_chats_available []]).
Proof.
  intros He. destruct u as [x|x|x|data];
    try (rewrite confirm_send_no_query by done; intros [= <- <-];
         exists []; rewrite app_nil_r;
         split_ands; [done | apply prefix_nil | done | done | done]).
  rewrite confirm_send_callback. simpl.
  destruct (raises bot (trace w) answer) eqn:Ea.
  { intros [= <- <-]. exists [answer].
    split_ands; [done | | done | done | done].
    by exists [reply_text no_chats_available []]. }
  destruct (user_data w !! "post"%string) as [post|] eqn:Hp.
  2:{ intros [= <- <-]. exists [answer].
      split_ands; [done | | done | done | by intros _ ?%is_Some_None].
      by exists [reply_text no_chats_available []]. }
  rewrite He. simpl.
  destruct (raises bot (trace w ++ [answer]) _) eqn:Er; intros [= <- <-];
    exists [answer; reply_text no_chats_available []]; simpl;
    rewrite <- app_assoc; split_ands; done.
Qed.

Lemma empty_registry_short_circuits_witness :
  exists calls,
    trace (logged (reply_text no_chats_available [])
             (logged answer (world_with hello_post []))) = [] ++ calls /\
    queried calls = [] /\ sent_to calls = [] /\
    calls = [answer; reply_text no_chats_available []].
Proof.
  assert (E : confirm_send friendly_bot (callback "confirm_send")
                (world_with hello_post []) =
              (inr END,
               logged (reply_text no_chats_available [])
                 (logged answer (world_with hello_post []))))
    by (rewrite confirm_send_callback; reflexivity).
  destruct (empty_registry_short_circuits friendly_bot
              (callback "confirm_send") (world_with hello_post [])
              (inr END) _ eq_refl E)
    as (calls & Ht & _ & Hq & Hs & Hr).
  destruct (Hr eq_refl ltac:(by exists hello_post) eq_refl eq_refl)
    as [_ Hcalls].
  exists calls. split_ands; done.
Defined.

(** C7: a destination whose membership status is neither
    ['administrator'] nor ['creator'] is recorded as a failure with the
    reason "not admin"; the only call made for it is the membership query,
    and the loop goes on with the destinations that follow. *)
Theorem not_admin_is_recorded_and_skipped bot post chat_id info rest t w status :
  chat_member_status bot (trace w) chat_id (id bot) = inr status ->
  status <> lit "administrator" -> status <> lit "creator" ->
  exists t1 w1,
    broadcast_to bot post (chat_id, info) t w = (inr t1, w1) /\
    failed_count t1 = failed_count t + 1 /\
    success_count t1 = success_count t /\
    failed_chats t1 =
      failed_chats t ++ [chat_title info ++ lit " (not admin)"] /\
    trace w1 = trace w ++ [get_chat_member chat_id (id bot)] /\
    broadcast_loop bot post ((chat_id, info) :: rest) t w =
      broadcast_loop bot post rest t1 w1.
Proof.
  intros Hs H1 H2.
  pose proof (broadcast_to_cases bot post chat_id info t w) as E.
  cbv zeta in E. rewrite Hs, is_admin_status_false in E by done.
  eexists _, _. split; [exact E|]. split_ands; try done.
  by rewrite broadcast_loop_cons, E.
Qed.

(** Scenario 2: two destinations, the bot administers one of them. *)
Example scenario_2 :
  fst (broadcast_loop member_of_2_bot hello_post
         [(1%Z, chat_info "A"); (2%Z, chat_info "B")] tally0
         (world_with hello_post
            [(1%Z, chat_info "A"); (2%Z, chat_info "B")])) =
  inr {| success_count := 1; failed_count := 1;
         failed_chats := [lit "B (not admin)"] |}.
Proof. vm_compute. reflexivity. Qed.

Lemma not_admin_is_recorded_and_skipped_witness :
  fst (broadcast_loop member_of_2_bot hello_post
         [(2%Z, chat_info "B"); (1%Z, chat_info "A")] tally0
         (world_with hello_post
            [(2%Z, chat_info "B"); (1%Z, chat_info "A")])) =
  inr {| success_count := 1; failed_count := 1;
         failed_chats := [lit "B (not admin)"] |}.
Proof.
  destruct (not_admin_is_recorded_and_skipped member_of_2_bot hello_post 2
              (chat_info "B") [(1%Z, chat_info "A")] tally0
              (world_with hello_post
                 [(2%Z, chat_info "B"); (1%Z, chat_info "A")])
              (lit "member") eq_refl)
    as (t1 & w1 & E & Hf & Hs & Hl & Ht & ->);
    [vm_compute; discriminate .. |].
  injection E as <- <-. vm_compute. reflexivity.
Defined.

(** C8: a destination whose membership query or whose dispatch raises is
    recorded as a failure whose reason is the first 30 characters of the
    error at most, and the loop goes on with the destinations that follow
    and completes. *)
Theorem error_is_recorded_and_run_goes_on bot post chat_id info rest t w e :
  chat_member_status bot (trace w) chat_id (id bot) = inl e \/
  (exists status,
     chat_member_status bot (trace w) chat_id (id bot) = inr status /\
     is_admin_status status = true /\
     raises bot (trace w ++ [get_chat_member chat_id (id bot)])
       (delivery post chat_id) = Some e) ->
  exists t1 w1 reason,
    broadcast_to bot post (chat_id, info) t w = (inr t1, w1) /\
    failed_count t1 = failed_count t + 1 /\
    success_count t1 = success_count t /\
    failed_chats t1 =
      failed_chats t ++ [chat_title info ++ lit " (" ++ reason ++ lit ")"] /\
    reason = take 30 e /\ length reason <= 30 /\
    broadcast_loop bot post ((chat_id, info) :: rest) t w =
      broadcast_loop bot post rest t1 w1 /\
    exists t2 w2, broadcast_loop bot post rest t1 w1 = (inr t2, w2).
Proof.
  intros H.
  pose proof (broadcast_to_cases bot post chat_id info t w) as E.
  cbv zeta in E.
  assert (exists w1, broadcast_to bot post (chat_id, info) t w =
                       (inr (failed (error_entry info e) t), w1))
    as [w1 E1].
  { destruct H as [Hq|(status & Hq & Ha & Hd)]; rewrite Hq in E.
    - eauto.
    - rewrite Ha, trace_logged, Hd in E. eauto. }
  exists (failed (error_entry info e) t), w1, (take 30 e).
  split; [exact E1|]. split_ands; try done.
  - rewrite length_take. lia.
  - by rewrite broadcast_loop_cons, E1.
  - destruct (broadcast_loop_total bot post rest
                (failed (error_entry info e) t) w1) as (t2 & w2 & E2 & _).
    eauto.
Qed.

Lemma error_is_recorded_and_run_goes_on_witness :
  exists t1 w1,
    broadcast_to failing_1_bot hello_post (1%Z, chat_info "A") tally0
      (world_with hello_post [(1%Z, chat_info "A"); (2%Z, chat_info "B")])
    = (inr t1, w1) /\
    failed_chats t1 = [lit "A (Forbidden: bot was kicked from)"] /\
    fst (broadcast_loop failing_1_bot hello_post
           [(1%Z, chat_info "A"); (2%Z, chat_info "B")] tally0
           (world_with hello_post
              [(1%Z, chat_info "A"); (2%Z, chat_info "B")])) =
    inr {| success_count := 1; failed_count := 1;
           failed_chats := [lit "A (Forbidden: bot was kicked from)"] |}.
Proof.
  destruct (error_is_recorded_and_run_goes_on failing_1_bot hello_post 1
              (chat_info "A") [(2%Z, chat_info "B")] tally0
              (world_with hello_post
                 [(1%Z, chat_info "A"); (2%Z, chat_info "B")])
              (lit "Forbidden: bot was kicked from the supergroup chat"))
    as (t1 & w1 & reason & E & _ & _ & Hl & -> & _ & -> & _);
    [right; exists (lit "administrator"); repeat split; reflexivity |].
  exists t1, w1. split; [exact E|]. split; [exact Hl|].
  injection E as <- <-. vm_compute. reflexivity.
Defined.

(** ** The title step *)

(** [handle_title] on a text message, by the length of the trimmed text
    and what the platform answers. *)
Lemma handle_title_text bot t w :
  handle_title bot (text_message t) w =
    if 200 <? length (strip t) then
      match raises bot (trace w) (reply_text title_too_long []) with
      | Some e => (inl (TelegramError e),
                   logged (reply_text title_too_long []) w)
      | None => (inr ENTERING_TITLE, logged (reply_text title_too_long []) w)
      end
    else
      match user_data w !! "post"%string with
      | None => (inl (KeyError "post"), w)
      | Some p =>
          let w1 :=
            logged (reply_text title_saved [])
              (with_user_data
                 (<["post"%string := set_title (Some (strip t)) p]>
                    (user_data w)) w) in
          match raises bot (trace w) (reply_text title_saved []) with
          | Some e => (inl (TelegramError e), w1)
          | None =>
              let c := reply_text description_prompt description_keyboard in
              match raises bot (trace w1) c with
              | Some e => (inl (TelegramError e), logged c w1)
              | None => (inr ENTERING_DESCRIPTION, logged c w1)
              end
          end
      end.
Proof.
  unfold handle_title, ask_for_description, description_keyboard. unfold_m.
  simpl. destruct (200 <? length (strip t)); simpl.
  - by destruct (raises bot _ _).
  - destruct (user_data w !! "post"%string) as [p|]; simpl; [|done].
    destruct (raises bot (trace w) _); simpl; [done|].
    by destruct (raises bot _ _).
Qed.

(** [cancel] returns [END] when it returns. *)
Lemma cancel_returns_END bot u w s w' :
  cancel bot u w = (inr s, w') -> s = END.
Proof.
  unfold cancel. unfold_m. destruct u; simpl;
    repeat (destruct (raises bot _ _); simpl; try discriminate);
    by intros [= <- _].
Qed.

(** The handlers the title state can pick. *)
Lemma find_handler_title u :
  find_handler (Some ENTERING_TITLE) u = None \/
  find_handler (Some ENTERING_TITLE) u = Some h_handle_title /\
    (exists t, t <> [] /\ u = text_message t) \/
  find_handler (Some ENTERING_TITLE) u = Some h_cancel.
Proof.
  destruct u as [[|c t]|ph|n|d]; simpl.
  - by left.
  - right. left. split; [done|]. by exists (c :: t).
  - by left.
  - destruct (String.eqb (lower n) "cancel"); auto.
  - destruct (re_match "cancel" d); auto.
Qed.

(** A text message with a text goes to the text handler of the state. *)
Lemma find_handler_text s t :
  t <> [] ->
  find_handler (Some s) (text_message t) =
    match s with
    | ENTERING_TITLE => Some h_handle_title
    | ENTERING_DESCRIPTION => Some h_handle_description
    | ENTERING_URL => Some h_handle_url
    | _ => None
    end.
Proof. intros Hne. destruct t; [done|]. by destruct s. Qed.

(** A message with an empty text is accepted by no handler. *)
Lemma find_handler_empty_text conv :
  find_handler conv (text_message []) = None.
Proof. by destruct conv as [[]|]. Qed.

(** A message with an empty text is left alone in the title state, and
    the name of a command is matched whatever its case. *)
Example empty_text_is_ignored :
  conversation_update friendly_bot (Some ENTERING_TITLE) (text_message [])
    (world_with fresh_post []) = (Some ENTERING_TITLE, world_with fresh_post []).
Proof. reflexivity. Qed.

Example command_case_is_ignored :
  find_handler (Some ENTERING_TITLE) (command "Cancel") = Some h_cancel /\
  find_handler None (command "NewPost") = Some h_new_post.
Proof. split; reflexivity. Qed.

(** What trimming is: [strip] takes off the white space at both ends and
    nothing else. *)
Lemma lstrip_split s :
  exists l, s = l ++ lstrip s /\ forallb isspace l = true /\
            (forall c, head (lstrip s) = Some c -> isspace c = false).
Proof.
  induction s as [|c s (l & Hs & Hl & Hh)]; simpl.
  - by exists [].
  - destruct (isspace c) eqn:Ec.
    + exists (c :: l). simpl. rewrite Ec. split_ands; try done.
      by rewrite <- Hs.
    + exists []. split_ands; try done. simpl. by intros ? [= <-].
Qed.

Lemma rstrip_split s :
  exists r, s = rstrip s ++ r /\ forallb isspace r = true /\
            (forall c, last (rstrip s) = Some c -> isspace c = false).
Proof.
  induction s as [|c s (r & Hs & Hr & Hl)]; simpl.
  - by exists [].
  - destruct (rstrip s) as [|d q] eqn:E.
    + simpl in Hs. destruct (isspace c) eqn:Ec.
      * exists (c :: s). simpl. rewrite Ec. split_ands; try done.
        by rewrite Hs.
      * exists s. split_ands; try done; [by rewrite Hs|].
        simpl. by intros ? [= <-].
    + exists r. split_ands; try done. by rewrite Hs at 1.
Qed.

Lemma strip_trimmed t : trimmed_of t (strip t).
Proof.
  unfold trimmed_of, strip.
  destruct (lstrip_split t) as (l & Ht & Hl & Hh).
  destruct (rstrip_split (lstrip t)) as (r & Hs & Hr & Hla).
  exists l, r. split_ands; try done.
  - by rewrite <- Hs.
  - intros c Hc. apply Hh. rewrite Hs.
    destruct (rstrip (lstrip t)); [done|]. exact Hc.
Qed.

(** C5: in the title state the text of a message is trimmed of the white
    space around it; a trimmed text of more than 200 characters leaves
    the conversation in the title state and the user data untouched, and
    one of at most 200 characters is stored as the title and, once the
    two replies are out, the conversation is in the description state. No
    other update takes the conversation from the title state to the
    description state. A message has a text when it is not empty. *)
Theorem title_step bot t w p :
  t <> [] ->
  user_data w !! "post"%string = Some p ->
  trimmed_of t (strip t) /\
  exists conv' w',
    conversation_update bot (Some ENTERING_TITLE) (text_message t) w
      = (conv', w') /\
    (if 200 <? length (strip t) then
       conv' = Some ENTERING_TITLE /\ user_data w' = user_data w /\
       new_calls w w' = [reply_text title_too_long []]
     else
       user_data w' =
         <["post"%string := set_title (Some (strip t)) p]> (user_data w) /\
       (raises bot (trace w) (reply_text title_saved []) = None ->
        raises bot (trace w ++ [reply_text title_saved []])
          (reply_text description_prompt description_keyboard) = None ->
        conv' = Some ENTERING_DESCRIPTION)) /\
    (forall u w0 w1,
       conversation_update bot (Some ENTERING_TITLE) u w0
         = (Some ENTERING_DESCRIPTION, w1) ->
       exists t' p',
         u = text_message t' /\ t' <> [] /\ length (strip t') <= 200 /\
         user_data w1 !! "post"%string = Some p' /\
         title p' = Some (strip t')).
Proof.
  intros Hne Hp. split; [apply strip_trimmed|].
  unfold conversation_update at 1. rewrite (find_handler_text _ t Hne).
  simpl run. rewrite handle_title_text.
  assert (Hskip : forall u w0 w1,
             conversation_update bot (Some ENTERING_TITLE) u w0
               = (Some ENTERING_DESCRIPTION, w1) ->
             exists t' p',
               u = text_message t' /\ t' <> [] /\
               length (strip t') <= 200 /\
               user_data w1 !! "post"%string = Some p' /\
               title p' = Some (strip t')).
  { intros u w0 w1. unfold conversation_update.
    destruct (find_handler_title u) as [-> | [[-> (t' & Hne' & ->)] | ->]].
    - discriminate.
    - simpl run. rewrite handle_title_text.
      destruct (200 <? length (strip t')) eqn:El.
      + destruct (raises bot _ _); discriminate.
      + apply Nat.ltb_ge in El.
        destruct (user_data w0 !! "post"%string) as [p0|]; [|discriminate].
        cbv zeta. destruct (raises bot (trace w0) _); [discriminate|].
        destruct (raises bot _ _); [discriminate|].
        intros [= <-]. exists t', (set_title (Some (strip t')) p0).
        split_ands; try done. simpl. apply lookup_insert_eq.
    - simpl run. destruct (cancel bot u w0) as [[e|s] w2] eqn:Ec;
        [discriminate|].
      apply cancel_returns_END in Ec as ->. discriminate. }
  destruct (200 <? length (strip t)) eqn:El.
  - destruct (raises bot _ _); eexists _, _; (split; [reflexivity|]);
      (split; [|exact Hskip]); split_ands; try done;
      by apply new_calls_app.
  - rewrite Hp. cbv zeta. rewrite trace_logged. simpl trace.
    destruct (raises bot (trace w) (reply_text title_saved [])) eqn:E1.
    { eexists _, _. split; [reflexivity|]. split; [|exact Hskip]. by split. }
    destruct (raises bot (trace w ++ [reply_text title_saved []]) _) eqn:E2.
    + eexists _, _. split; [reflexivity|]. split; [|exact Hskip]. by split.
    + eexists _, _. split; [reflexivity|]. split; [|exact Hskip]. by split.
Qed.

(** A text of 203 characters, 200 of them between the white space at its
    ends: the 200 are stored. *)
Lemma title_step_witness :
  exists conv' w',
    conversation_update friendly_bot (Some ENTERING_TITLE)
      (text_message (lit "  " ++ replicate 200 97%N ++ lit " "))
      (world_with fresh_post []) = (conv', w') /\
    conv' = Some ENTERING_DESCRIPTION /\
    user_data w' !! "post"%string =
      Some (set_title (Some (replicate 200 97%N)) fresh_post) /\
    trimmed_of (lit "  " ++ replicate 200 97%N ++ lit " ")
      (replicate 200 97%N).
Proof.
  assert (Hne : lit "  " ++ replicate 200 97%N ++ lit " " <> [])
    by discriminate.
  destruct (title_step friendly_bot
              (lit "  " ++ replicate 200 97%N ++ lit " ")
              (world_with fresh_post []) fresh_post Hne eq_refl)
    as (Htrim & conv' & w' & E & H & _).
  assert (Es : strip (lit "  " ++ replicate 200 97%N ++ lit " ")
               = replicate 200 97%N) by (vm_compute; reflexivity).
  rewrite Es in H, Htrim.
  change (200 <? length (replicate 200 97%N)) with false in H.
  destruct H as [Hu Hc].
  exists conv', w'. split; [exact E|]. split; [|split; [|exact Htrim]].
  - apply Hc; reflexivity.
  - rewrite Hu. vm_compute. reflexivity.
Defined.

(** Scenario 5: a title of exactly 200 characters is accepted, one of 201
    is rejected. *)
Example scenario_5_accepted :
  fst (conversation_update friendly_bot (Some ENTERING_TITLE)
         (text_message (replicate 200 97%N)) (world_with fresh_post []))
  = Some ENTERING_DESCRIPTION.
Proof. vm_compute. reflexivity. Qed.

Example scenario_5_rejected :
  let r := conversation_update friendly_bot (Some ENTERING_TITLE)
             (text_message (replicate 201 97%N)) (world_with fresh_post [])
  in fst r = Some ENTERING_TITLE /\
     user_data (snd r) !! "post"%string = Some fresh_post.
Proof. vm_compute. split; reflexivity. Qed.

(** ** The url step *)

Lemma strip_bar s :
  contains bar s = true ->
  exists l r, split_first bar s = (l, Some r) /\
              strip s = lstrip l ++ bar :: rstrip r /\
              contains bar (lstrip l) = false.
Proof.
  intros (l & r & Hs & -> & Hl)%split_first_app.
  exists l, r. split; [done|]. split; [|by apply contains_lstrip_false].
  unfold strip. rewrite lstrip_app_bar.
  rewrite rstrip_app by (by rewrite rstrip_cons_nonspace).
  by rewrite rstrip_cons_nonspace.
Qed.

Lemma contains_app c a b : contains c (a ++ b) = contains c a || contains c b.
Proof. apply existsb_app. Qed.

(** Trimming neither adds nor removes a separator. *)
Lemma contains_bar_strip s : contains bar (strip s) = contains bar s.
Proof.
  destruct (contains bar s) eqn:E.
  - destruct (strip_bar s E) as (l & r & _ & -> & _).
    rewrite contains_app. simpl. apply orb_true_r.
  - by apply strip_lacks.
Qed.

Lemma insert_post_twice (d : gmap string Post) p q :
  <["post"%string := q]> (<["post"%string := p]> d) = <["post"%string := q]> d.
Proof. apply insert_insert_eq. Qed.

(** [handle_url] on a text message, in the words of the specification for
    the parts of the input, by what the platform answers. *)
Lemma handle_url_text bot t w :
  handle_url bot (text_message t) w =
    if negb (contains bar t) then
      match raises bot (trace w) (reply_text invalid_format []) with
      | Some e => (inl (TelegramError e),
                   logged (reply_text invalid_format []) w)
      | None => (inr ENTERING_URL, logged (reply_text invalid_format []) w)
      end
    else if negb (valid_scheme (spec_url t)) then
      match raises bot (trace w) (reply_text invalid_url []) with
      | Some e => (inl (TelegramError e),
                   logged (reply_text invalid_url []) w)
      | None => (inr ENTERING_URL, logged (reply_text invalid_url []) w)
      end
    else
      match user_data w !! "post"%string with
      | None => (inl (KeyError "post"), w)
      | Some p =>
          let w1 :=
            logged (reply_text button_saved [])
              (with_user_data
                 (<["post"%string :=
                      set_button_text (Some (spec_right t))
                        (set_url (Some (spec_url t)) p)]> (user_data w)) w)
          in
          match raises bot (trace w) (reply_text button_saved []) with
          | Some e => (inl (TelegramError e), w1)
          | None => show_preview bot (text_message t) w1
          end
      end.
Proof.
  unfold handle_url, valid_scheme.
  remember (show_preview bot (text_message t)) as preview.
  unfold_m. simpl. rewrite contains_bar_strip.
  destruct (contains bar t) eqn:Eb; simpl.
  2:{ by destruct (raises bot _ _). }
  destruct (split1_strip t Eb) as (p0 & p1 & Hparts & H0 & H1).
  rewrite Hparts. simpl. rewrite H0, H1.
  destruct (startswith (lit "http://") (spec_url t)
            || startswith (lit "https://") (spec_url t)); simpl.
  2:{ by destruct (raises bot _ _). }
  destruct (user_data w !! "post"%string) as [p|]; simpl; [|done].
  rewrite lookup_insert_eq. simpl. rewrite insert_post_twice.
  destruct (raises bot _ _); simpl; [done|].
  by destruct (preview _) as [[e|s] w2].
Qed.

(** [show_preview] only reads the user data. *)
Lemma show_preview_read_only bot u : read_only (show_preview bot u).
Proof.
  intros w r w'. unfold show_preview. unfold_m.
  destruct (user_data w !! "post"%string) as [p|]; simpl;
    [|by intros [= _ <-]].
  destruct (truthy (image p)), (has_callback_query u), (has_message u);
    simpl; try (by intros [= _ <-]);
    destruct (raises bot _ _); simpl; by intros [= _ <-].
Qed.

(** C6: in the url state a text without [|], and a text with [|] whose
    trimmed left part starts with neither [http://] nor [https://], leaves
    the conversation in the url state and leaves the user data, so the
    Draft's [url] and [button_text], as they were. The operator gets the
    warning that fits; a message with an empty text is accepted by no
    handler and gets no answer. *)
Theorem url_step_rejects bot t w :
  contains bar t = false \/
  (contains bar t = true /\ valid_scheme (spec_url t) = false) ->
  exists w',
    conversation_update bot (Some ENTERING_URL) (text_message t) w
      = (Some ENTERING_URL, w') /\
    user_data w' = user_data w /\
    new_calls w w' =
      match t with
      | [] => []
      | _ :: _ =>
          [reply_text (if contains bar t then invalid_url
                       else invalid_format) []]
      end.
Proof.
  intros H. unfold conversation_update.
  destruct t as [|c t0].
  { rewrite find_handler_empty_text. exists w. split_ands; try done.
    apply new_calls_app. by rewrite app_nil_r. }
  rewrite find_handler_text by done. remember (c :: t0) as t.
  simpl run. rewrite handle_url_text.
  clear Heqt.
  destruct H as [-> | [-> ->]]; simpl negb; cbv iota;
    destruct (raises bot _ _); eexists; (split; [reflexivity|]);
    (split; [done|]); by apply new_calls_app.
Qed.

(** Scenario 3: ["example.com | Go"] has no scheme. *)
Lemma url_step_rejects_witness :
  exists w',
    conversation_update friendly_bot (Some ENTERING_URL)
      (text_message (lit "example.com | Go")) (world_with hello_post [])
      = (Some ENTERING_URL, w') /\
    user_data w' = user_data (world_with hello_post []) /\
    new_calls (world_with hello_post []) w' = [reply_text invalid_url []].
Proof.
  apply (url_step_rejects friendly_bot (lit "example.com | Go")
           (world_with hello_post [])).
  right. split; vm_compute; reflexivity.
Defined.

(** C1, on the code: for the input ["https://x.com | "] the url stored is
    the trimmed left part, and the button text stored is the trimmed
    right part, which is empty; the specified default ["Click Here"] is
    not applied, because the text that reaches [split] always has two
    parts. *)
Theorem handle_url_blank_button_text bot w p :
  user_data w !! "post"%string = Some p ->
  user_data (snd (handle_url bot (text_message (lit "https://x.com | ")) w))
    !! "post"%string =
    Some (set_button_text (Some [])
            (set_url (Some (lit "https://x.com")) p)) /\
  spec_button_text (lit "https://x.com | ") = lit "Click Here".
Proof.
  intros Hp. split; [|vm_compute; reflexivity].
  rewrite handle_url_text, Hp.
  change (contains bar (lit "https://x.com | ")) with true.
  change (valid_scheme (spec_url (lit "https://x.com | "))) with true.
  change (spec_url (lit "https://x.com | ")) with (lit "https://x.com").
  change (spec_right (lit "https://x.com | ")) with (@nil char).
  simpl negb. cbv iota zeta.
  destruct (raises bot _ _).
  - simpl. apply lookup_insert_eq.
  - match goal with
    | |- context [show_preview bot ?u ?w1] =>
        destruct (show_preview bot u w1) as [r w2] eqn:E
    end.
    apply show_preview_read_only in E. simpl. rewrite E. simpl.
    apply lookup_insert_eq.
Qed.

Lemma handle_url_blank_button_text_witness :
  user_data (snd (handle_url friendly_bot
                    (text_message (lit "https://x.com | "))
                    (world_with hello_post [])))
    !! "post"%string =
    Some (set_button_text (Some [])
            (set_url (Some (lit "https://x.com")) hello_post)).
Proof.
  apply (handle_url_blank_button_text friendly_bot
           (world_with hello_post []) hello_post eq_refl).
Defined.

(** ** The Draft invariant *)

Lemma session_invariant_same w w' :
  user_data w' = user_data w -> session_invariant w -> session_invariant w'.
Proof. unfold session_invariant. by intros ->. Qed.

Lemma read_only_preserves {A} (m : M A) : read_only m -> preserves m.
Proof.
  intros H w r w' Hi E. apply (session_invariant_same w w'); [|done].
  by apply (H w r w').
Qed.

Lemma preserves_mret {A} (a : A) : preserves (mret a).
Proof. intros w r w' Hi [= _ <-]. done. Qed.

Lemma preserves_raise {A} e : preserves (@raise A e).
Proof. intros w r w' Hi [= _ <-]. done. Qed.

Lemma preserves_bind {A B} (m : M A) (f : A -> M B) :
  preserves m -> (forall a, preserves (f a)) -> preserves (m ≫= f).
Proof.
  intros Hm Hf w r w' Hi. unfold mbind, M_bind.
  destruct (m w) as [[e|a] w1] eqn:E.
  - intros [= _ <-]. eauto.
  - intros E2. eapply Hf; [|exact E2]. eauto.
Qed.

Lemma read_only_await bot c : read_only (await bot c).
Proof.
  intros w r w'. unfold await.
  destruct (raises bot _ _); by intros [= _ <-].
Qed.

Lemma preserves_await bot c : preserves (await bot c).
Proof. apply read_only_preserves, read_only_await. Qed.

Lemma preserves_get_post : preserves get_post.
Proof.
  intros w r w' Hi. unfold get_post.
  destruct (user_data w !! "post"%string); by intros [= _ <-].
Qed.

Lemma preserves_put_post p : draft_invariant p -> preserves (put_post p).
Proof.
  intros Hp w r w' Hi [= _ <-] q. simpl.
  rewrite lookup_insert_eq. by intros [= <-].
Qed.

Lemma preserves_update_post f :
  (forall p, draft_invariant p -> draft_invariant (f p)) ->
  preserves (update_post f).
Proof.
  intros Hf w r w' Hi. unfold update_post, get_post, put_post.
  unfold mbind, M_bind.
  destruct (user_data w !! "post"%string) as [p|] eqn:Hp;
    intros [= _ <-]; [|done].
  intros q. simpl. rewrite lookup_insert_eq. intros [= <-]. auto.
Qed.

(** Setting [url] and then [button_text] to values that are both present or
    both absent gives a Draft that satisfies the invariant, whatever it
    was. *)
Lemma preserves_url_updates {A} a b (k : M A) :
  (is_Some b <-> is_Some a) -> preserves k ->
  preserves (update_post (set_url a);; update_post (set_button_text b);; k).
Proof.
  intros Hab Hk w r w' Hi. unfold update_post, get_post, put_post.
  unfold mbind, M_bind.
  destruct (user_data w !! "post"%string) as [p|] eqn:Hp; simpl;
    [|by intros [= _ <-]].
  rewrite lookup_insert_eq. apply Hk.
  intros q. simpl. rewrite lookup_insert_eq. by intros [= <-].
Qed.

Lemma preserves_clear_user_data : preserves clear_user_data.
Proof. intros w r w' Hi [= _ <-] q. simpl. by rewrite lookup_empty. Qed.

Lemma preserves_broadcast_loop bot post items t :
  preserves (broadcast_loop bot post items t).
Proof.
  intros w r w' Hi E.
  destruct (broadcast_loop_total bot post items t w)
    as (t' & w2 & E2 & _ & _ & Hu & _).
  rewrite E in E2. injection E2 as _ <-.
  by eapply session_invariant_same.
Qed.

Lemma draft_invariant_image v p :
  draft_invariant p -> draft_invariant (set_image v p).
Proof. done. Qed.

Lemma draft_invariant_title v p :
  draft_invariant p -> draft_invariant (set_title v p).
Proof. done. Qed.

Lemma draft_invariant_description v p :
  draft_invariant p -> draft_invariant (set_description v p).
Proof. done. Qed.

Lemma draft_invariant_fresh : draft_invariant fresh_post.
Proof. unfold draft_invariant. simpl. by rewrite !is_Some_alt. Qed.

Create HintDb preserves_db.
#[local] Hint Resolve preserves_mret preserves_raise preserves_await
  preserves_get_post preserves_clear_user_data preserves_broadcast_loop
  draft_invariant_image draft_invariant_title draft_invariant_description
  draft_invariant_fresh preserves_put_post preserves_update_post
  : preserves_db.

(** Walks through a handler statement by statement. *)
Ltac walk :=
  repeat first
    [ solve [eauto with preserves_db]
    | apply preserves_url_updates; [by rewrite !is_Some_alt|]
    | apply preserves_bind; [|intros ?]
    | match goal with
      | |- preserves (if ?b then _ else _) => destruct b
      | |- preserves (match ?x with _ => _ end) => destruct x
      end ].

Lemma preserves_operator_calls bot u m kb photo :
  preserves (message_reply_text bot u m kb) /\
  preserves (message_reply_photo bot u photo m kb) /\
  preserves (query_answer bot u) /\
  preserves (query_edit_text bot u m kb) /\
  preserves (query_reply_text bot u m kb) /\
  preserves (query_reply_photo bot u photo m kb).
Proof.
  unfold message_reply_text, message_reply_photo, query_answer,
    query_edit_text, query_reply_text, query_reply_photo.
  split_ands; walk.
Qed.

Lemma preserves_message_reply_text bot u m kb :
  preserves (message_reply_text bot u m kb).
Proof. apply (preserves_operator_calls bot u m kb None). Qed.
Lemma preserves_message_reply_photo bot u photo m kb :
  preserves (message_reply_photo bot u photo m kb).
Proof. apply (preserves_operator_calls bot u m kb photo). Qed.
Lemma preserves_query_answer bot u : preserves (query_answer bot u).
Proof. apply (preserves_operator_calls bot u title_prompt [] None). Qed.
Lemma preserves_query_edit_text bot u m kb :
  preserves (query_edit_text bot u m kb).
Proof. apply (preserves_operator_calls bot u m kb None). Qed.
Lemma preserves_query_reply_text bot u m kb :
  preserves (query_reply_text bot u m kb).
Proof. apply (preserves_operator_calls bot u m kb None). Qed.
Lemma preserves_query_reply_photo bot u photo m kb :
  preserves (query_reply_photo bot u photo m kb).
Proof. apply (preserves_operator_calls bot u m kb photo). Qed.

Lemma preserves_get_chat_count : preserves get_chat_count.
Proof. by intros w r w' Hi [= _ <-]. Qed.
Lemma preserves_get_all_chats : preserves get_all_chats.
Proof. by intros w r w' Hi [= _ <-]. Qed.

#[local] Hint Resolve preserves_message_reply_text
  preserves_message_reply_photo preserves_query_answer
  preserves_query_edit_text preserves_query_reply_text
  preserves_query_reply_photo preserves_get_chat_count
  preserves_get_all_chats : preserves_db.

(** Every handler of the wizard keeps the session invariant, whether it
    returns or raises. *)
Lemma run_preserves bot h u : preserves (run bot h u).
Proof.
  destruct h; unfold run, new_post, handle_image, skip_image, handle_title,
    handle_description, skip_description, handle_url, skip_url,
    confirm_send, cancel, ask_for_title, ask_for_description, ask_for_url,
    show_preview, message_text_strip, message_photo, index, index_last;
    walk.
Qed.

Lemma read_only_query_answer bot u : read_only (query_answer bot u).
Proof.
  unfold query_answer. destruct (has_callback_query u).
  - apply read_only_await.
  - by intros w r w' [= _ <-].
Qed.

(** After the two assignments of the url step the Draft holds the two
    values, and a preview that follows leaves them there. *)
Lemma url_updates_then_preview bot u a b w s w' :
  (update_post (set_url a);; update_post (set_button_text b);;
   show_preview bot u) w = (inr s, w') ->
  exists p, user_data w' !! "post"%string =
              Some (set_button_text b (set_url a p)).
Proof.
  unfold update_post, get_post, put_post. unfold mbind, M_bind.
  destruct (user_data w !! "post"%string) as [p|] eqn:Hp; simpl;
    [|discriminate].
  rewrite lookup_insert_eq. intros E%show_preview_read_only.
  exists p. rewrite E. simpl. apply lookup_insert_eq.
Qed.

(** A command is a message whose text is the command. *)
Lemma handle_url_command bot n :
  handle_url bot (command n) =
  handle_url bot (text_message (lit "/" ++ lit n)).
Proof. reflexivity. Qed.

(** [handle_url] reaches the preview only from a text with a separator
    and a valid scheme, and then the Draft has both values. *)
Lemma handle_url_preview bot u w s w' :
  handle_url bot u w = (inr s, w') -> s = PREVIEW ->
  exists p, user_data w' !! "post"%string = Some p /\
            is_Some (url p) /\ is_Some (button_text p).
Proof.
  assert (Htext : forall t, handle_url bot (text_message t) w = (inr s, w') ->
                  s = PREVIEW ->
                  exists p, user_data w' !! "post"%string = Some p /\
                            is_Some (url p) /\ is_Some (button_text p)).
  { intros t. rewrite handle_url_text.
    destruct (negb (contains bar t)).
    { destruct (raises bot _ _); [discriminate|]. by intros [= <- _]. }
    destruct (negb (valid_scheme (spec_url t))).
    { destruct (raises bot _ _); [discriminate|]. by intros [= <- _]. }
    destruct (user_data w !! "post"%string) as [p|]; [|discriminate].
    cbv zeta. destruct (raises bot _ _); [discriminate|].
    intros E%show_preview_read_only _. rewrite E. simpl.
    eexists. split; [apply lookup_insert_eq|]. simpl.
    by rewrite !is_Some_alt. }
  destruct u as [t|ph|n|d]; try discriminate.
  - apply Htext.
  - rewrite handle_url_command. apply Htext.
Qed.

(** [skip_url], when it returns, has set both values to [None]. *)
Lemma skip_url_clears bot u w s w' :
  skip_url bot u w = (inr s, w') ->
  exists p, user_data w' !! "post"%string = Some p /\
            url p = None /\ button_text p = None.
Proof.
  unfold skip_url. unfold mbind at 1. unfold M_bind at 1.
  destruct (query_answer bot u w) as [[e|[]] w1] eqn:Ea; [discriminate|].
  intros (p & Hp)%url_updates_then_preview. eauto.
Qed.

(** C4: every operation of the wizard leaves a Draft, when the session
    has one, with [button_text] present exactly when [url] is. A fresh
    Draft has neither, leaving the url step by the skip button sets both
    to [None], and leaving it by a valid input sets both. *)
Theorem wizard_keeps_draft_invariant bot h u w r w' :
  session_invariant w -> run bot h u w = (r, w') ->
  session_invariant w' /\
  (h = h_new_post ->
   user_data w' !! "post"%string = Some fresh_post /\
   url fresh_post = None /\ button_text fresh_post = None) /\
  (h = h_skip_url -> r = inr PREVIEW ->
   exists p, user_data w' !! "post"%string = Some p /\
             url p = None /\ button_text p = None) /\
  (h = h_handle_url -> r = inr PREVIEW ->
   exists p, user_data w' !! "post"%string = Some p /\
             is_Some (url p) /\ is_Some (button_text p)).
Proof.
  intros Hi E. split; [by eapply run_preserves|]. split_ands.
  - intros ->. simpl in E. split; [|done].
    revert E. unfold new_post, put_post. unfold_m. simpl.
    destruct (has_message u); simpl;
      try (destruct (has_callback_query u); simpl);
      try (destruct (raises bot _ _); simpl);
      intros [= _ <-]; simpl; apply lookup_insert_eq.
  - intros -> ->. simpl in E. by eapply skip_url_clears.
  - intros -> ->. simpl in E. by eapply handle_url_preview.
Qed.

Lemma wizard_keeps_draft_invariant_witness :
  exists p,
    user_data (snd (run friendly_bot h_handle_url
                      (text_message (lit "https://t.me/x | Join"))
                      (world_with hello_post [])))
      !! "post"%string = Some p /\
    is_Some (url p) /\ is_Some (button_text p) /\ draft_invariant p.
Proof.
  assert (Hi : session_invariant (world_with hello_post [])).
  { intros p. vm_compute. intros [= <-]. vm_compute.
    split; intros [x Hx]; discriminate. }
  destruct (wizard_keeps_draft_invariant friendly_bot h_handle_url
              (text_message (lit "https://t.me/x | Join"))
              (world_with hello_post []) _ _ Hi
              (surjective_pairing _))
    as (Hi' & _ & _ & Hv).
  assert (Hr : fst (run friendly_bot h_handle_url
                      (text_message (lit "https://t.me/x | Join"))
                      (world_with hello_post [])) = inr PREVIEW)
    by (vm_compute; reflexivity).
  destruct (Hv eq_refl Hr) as (p & Hp & Hu & Hb).
  exists p. split_ands; [exact Hp | exact Hu | exact Hb | exact (Hi' p Hp)].
Defined.

(** ** Blank titles *)

(** [handle_title] on a blank text, by what the platform answers. *)
Lemma handle_title_blank bot t w p :
  forallb isspace t = true ->
  user_data w !! "post"%string = Some p ->
  handle_title bot (text_message t) w =
    let w1 :=
      logged (reply_text title_saved [])
        (with_user_data
           (<["post"%string := set_title (Some []) p]> (user_data w)) w) in
    match raises bot (trace w) (reply_text title_saved []) with
    | Some e => (inl (TelegramError e), w1)
    | None =>
        let c := reply_text description_prompt description_keyboard in
        match raises bot (trace w ++ [reply_text title_saved []]) c with
        | Some e => (inl (TelegramError e), logged c w1)
        | None => (inr ENTERING_DESCRIPTION, logged c w1)
        end
    end.
Proof.
  intros Hb Hp. rewrite handle_title_text, (strip_blank t Hb), Hp.
  change (200 <? length (@nil char)) with false. cbv iota. done.
Qed.

(** C10: [handle_title] accepts a text made of white space only, and the
    empty text, and stores the empty string as the title; a message with
    such a text reaches it through the conversation whenever the text is
    not empty. The message built from such a Draft has no title line, only
    the description when there is one; and with no description and no
    image the text sent to a destination the bot administers is empty. *)
Theorem blank_title_gives_no_title_line bot t w p :
  forallb isspace t = true ->
  user_data w !! "post"%string = Some p ->
  (exists r w',
     handle_title bot (text_message t) w = (r, w') /\
     user_data w' !! "post"%string = Some (set_title (Some []) p) /\
     (raises bot (trace w) (reply_text title_saved []) = None ->
      raises bot (trace w ++ [reply_text title_saved []])
        (reply_text description_prompt description_keyboard) = None ->
      r = inr ENTERING_DESCRIPTION) /\
     (t <> [] ->
      exists conv',
        conversation_update bot (Some ENTERING_TITLE) (text_message t) w
          = (conv', w') /\
        (raises bot (trace w) (reply_text title_saved []) = None ->
         raises bot (trace w ++ [reply_text title_saved []])
           (reply_text description_prompt description_keyboard) = None ->
         conv' = Some ENTERING_DESCRIPTION))) /\
  message_text (set_title (Some []) p) =
    (if truthy (description p) then fmt (description p) else []) /\
  (truthy (description p) = false -> truthy (image p) = false ->
   forall chat_id info tl w0 status,
     chat_member_status bot (trace w0) chat_id (id bot) = inr status ->
     is_admin_status status = true ->
     trace (snd (broadcast_to bot (set_title (Some []) p)
                   (chat_id, info) tl w0)) =
       trace w0 ++ [get_chat_member chat_id (id bot);
                    send_message chat_id [] (reply_markup p)]).
Proof.
  intros Hb Hp. split; [|split; [done|]].
  - assert (Hd : t <> [] ->
              conversation_update bot (Some ENTERING_TITLE) (text_message t) w
              = match handle_title bot (text_message t) w with
                | (inl _, w') => (Some ENTERING_TITLE, w')
                | (inr END, w') => (None, w')
                | (inr s, w') => (Some s, w')
                end).
    { intros Hne. unfold conversation_update.
      by rewrite (find_handler_text _ t Hne). }
    rewrite (handle_title_blank bot t w p Hb Hp) in *. cbv zeta in *.
    destruct (raises bot (trace w) (reply_text title_saved [])) eqn:E1;
      [|destruct (raises bot (trace w ++ [reply_text title_saved []]) _)
          eqn:E2];
      eexists _, _; (split; [reflexivity|]);
      (split; [simpl; apply lookup_insert_eq|]); (split; [done|]);
      intros Hne; rewrite (Hd Hne); eexists; (split; [reflexivity|]); done.
  - intros Hd Hi chat_id info tl w0 status Hs Ha.
    rewrite broadcast_to_cases. cbv zeta. rewrite Hs, Ha.
    assert (delivery (set_title (Some []) p) chat_id =
            send_message chat_id [] (reply_markup p)) as ->.
    { unfold delivery, message_text. simpl. by rewrite Hi, Hd. }
    destruct (raises bot _ _); simpl; by rewrite <- app_assoc.
Qed.

(** Three blanks through the conversation, and the empty text given to
    the handler. *)
Lemma blank_title_gives_no_title_line_witness :
  (exists conv' w',
     conversation_update friendly_bot (Some ENTERING_TITLE)
       (text_message (lit "   "))
       (world_with fresh_post [(1%Z, chat_info "A")]) = (conv', w') /\
     user_data w' !! "post"%string = Some (set_title (Some []) fresh_post) /\
     conv' = Some ENTERING_DESCRIPTION /\
     message_text (set_title (Some []) fresh_post) = [] /\
     trace (snd (broadcast_to friendly_bot (set_title (Some []) fresh_post)
                   (1%Z, chat_info "A") tally0 w')) =
       trace w' ++ [get_chat_member 1 7; send_message 1 [] None]) /\
  (exists w',
     handle_title friendly_bot (text_message [])
       (world_with fresh_post [(1%Z, chat_info "A")])
       = (inr ENTERING_DESCRIPTION, w') /\
     user_data w' !! "post"%string = Some (set_title (Some []) fresh_post)).
Proof.
  split.
  - destruct (blank_title_gives_no_title_line friendly_bot (lit "   ")
                (world_with fresh_post [(1%Z, chat_info "A")]) fresh_post
                eq_refl eq_refl)
      as ((r & w' & E & Hu & _ & Hd) & Hm & Hs).
    assert (Hne : lit "   " <> []) by discriminate.
    destruct (Hd Hne) as (conv' & Ec & Hc).
    exists conv', w'. split_ands.
    + exact Ec.
    + exact Hu.
    + exact (Hc eq_refl eq_refl).
    + exact Hm.
    + exact (Hs eq_refl eq_refl 1%Z (chat_info "A") tally0 w'
               (lit "administrator") eq_refl eq_refl).
  - destruct (blank_title_gives_no_title_line friendly_bot []
                (world_with fresh_post [(1%Z, chat_info "A")]) fresh_post
                eq_refl eq_refl)
      as ((r & w' & E & Hu & Hr & _) & _).
    exists w'. rewrite <- (Hr eq_refl eq_refl). split; [exact E | exact Hu].
Defined.

(** * Further properties of the code *)

(** ** The registry *)

Lemma dict_get_set k k' v d :
  dict_get k' (dict_set k v d) =
    if (k' =? k)%Z then Some v else dict_get k' d.
Proof.
  induction d as [|[k0 v0] d IH]; csimpl.
  - rewrite (Z.eqb_sym k k'). done.
  - destruct (k0 =? k)%Z eqn:E0; csimpl.
    + apply Z.eqb_eq in E0 as ->. rewrite (Z.eqb_sym k k').
      by destruct (k' =? k)%Z.
    + rewrite IH. destruct (k0 =? k')%Z eqn:E1; [|done].
      apply Z.eqb_eq in E1 as ->. by rewrite E0.
Qed.

Lemma dict_contains_elem k d : dict_contains k d = true <-> k ∈ d.*1.
Proof.
  induction d as [|[k0 v0] d IH]; csimpl.
  - split; [done|]. by intros ?%elem_of_nil.
  - rewrite orb_true_iff, IH, elem_of_cons, Z.eqb_eq.
    split; (intros [->|?]; [by left|by right]).
Qed.

Lemma dict_contains_false k d : dict_contains k d = false <-> k ∉ d.*1.
Proof.
  rewrite <- dict_contains_elem. by destruct (dict_contains k d).
Qed.

Lemma dict_set_keys k v d :
  (dict_set k v d).*1 = if dict_contains k d then d.*1 else d.*1 ++ [k].
Proof.
  induction d as [|[k0 v0] d IH]; csimpl; [done|].
  destruct (k0 =? k)%Z eqn:E0; csimpl.
  - by apply Z.eqb_eq in E0 as ->.
  - rewrite IH. by destruct (dict_contains k d).
Qed.

Lemma dict_del_keys_subseteq k d : (dict_del k d).*1 ⊆ d.*1.
Proof.
  induction d as [|[k0 v0] d IH]; csimpl; [done|].
  destruct (k0 =? k)%Z; csimpl; intros x; rewrite !elem_of_cons.
  - by right.
  - intros [->|Hx]; [by left|right; by apply IH].
Qed.

Lemma dict_del_unique k d : unique_keys d -> unique_keys (dict_del k d).
Proof.
  unfold unique_keys. induction d as [|[k0 v0] d IH]; csimpl; [done|].
  intros [Hn Hd]%NoDup_cons. destruct (k0 =? k)%Z; csimpl; [done|].
  apply NoDup_cons. split; [|auto].
  intros Hin. apply Hn. by apply (dict_del_keys_subseteq k d).
Qed.

Lemma dict_del_absent k d : k ∉ d.*1 -> dict_del k d = d.
Proof.
  induction d as [|[k0 v0] d IH]; csimpl; [done|].
  rewrite not_elem_of_cons. intros [Hne Hd].
  destruct (k0 =? k)%Z eqn:E0.
  - apply Z.eqb_eq in E0. congruence.
  - by rewrite IH.
Qed.

Lemma dict_del_gone k d : unique_keys d -> k ∉ (dict_del k d).*1.
Proof.
  unfold unique_keys. induction d as [|[k0 v0] d IH]; csimpl.
  - intros _. apply not_elem_of_nil.
  - intros [Hn Hd]%NoDup_cons. destruct (k0 =? k)%Z eqn:E0; csimpl.
    + by apply Z.eqb_eq in E0 as ->.
    + rewrite not_elem_of_cons. split; [|auto].
      apply Z.eqb_neq in E0. congruence.
Qed.

Lemma dict_get_del_other k k' d :
  k' <> k -> dict_get k' (dict_del k d) = dict_get k' d.
Proof.
  intros Hne. induction d as [|[k0 v0] d IH]; csimpl; [done|].
  destruct (k0 =? k)%Z eqn:E0; csimpl.
  - apply Z.eqb_eq in E0 as ->.
    destruct (k =? k')%Z eqn:E1; [|done].
    apply Z.eqb_eq in E1. congruence.
  - by rewrite IH.
Qed.

Lemma dict_get_absent k d : k ∉ d.*1 -> dict_get k d = None.
Proof.
  induction d as [|[k0 v0] d IH]; csimpl; [done|].
  rewrite not_elem_of_cons. intros [Hne Hd].
  destruct (k0 =? k)%Z eqn:E0; [|auto].
  apply Z.eqb_eq in E0. congruence.
Qed.

Lemma dict_del_set_fresh k v d : k ∉ d.*1 -> dict_del k (dict_set k v d) = d.
Proof.
  induction d as [|[k0 v0] d IH]; csimpl.
  - intros _. by rewrite Z.eqb_refl.
  - rewrite not_elem_of_cons. intros [Hne Hd].
    destruct (k0 =? k)%Z eqn:E0.
    + apply Z.eqb_eq in E0. congruence.
    + csimpl. rewrite E0. by rewrite IH.
Qed.

Lemma dict_set_unique k v d : unique_keys d -> unique_keys (dict_set k v d).
Proof.
  unfold unique_keys. rewrite dict_set_keys.
  destruct (dict_contains k d) eqn:E; [done|].
  intros Hd. apply NoDup_app. split_ands; [done| |apply NoDup_singleton].
  intros x Hx ->%list_elem_of_singleton.
  by apply dict_contains_false in E.
Qed.

(** X1: after [add_chat] the registry maps the chat id to the new record
    and every other id to what it had; an id that was registered keeps its
    place in the iteration order and a new one goes last. *)
Theorem add_chat_lookup chat_id title type now w :
  let w' := snd (add_chat chat_id title type now w) in
  fst (add_chat chat_id title type now w) = inr tt /\
  dict_get chat_id (chats w') =
    Some {| chat_title := title; chat_type := type; added_at := now |} /\
  (forall k, k <> chat_id -> dict_get k (chats w') = dict_get k (chats w)) /\
  (chats w').*1 =
    (if dict_contains chat_id (chats w) then (chats w).*1
     else (chats w).*1 ++ [chat_id]) /\
  user_data w' = user_data w /\ trace w' = trace w.
Proof.
  csimpl. split_ands; try done.
  - by rewrite dict_get_set, Z.eqb_refl.
  - intros k Hk. rewrite dict_get_set.
    destruct (k =? chat_id)%Z eqn:E; [|done].
    apply Z.eqb_eq in E. congruence.
  - apply dict_set_keys.
Qed.

(** X2: [add_chat] keeps the ids of the registry distinct; the count
    [get_chat_count] reports grows by one for a new id and stays for a
    registered one. *)
Theorem add_chat_count chat_id title type now w :
  unique_keys (chats w) ->
  let w' := snd (add_chat chat_id title type now w) in
  unique_keys (chats w') /\
  fst (get_chat_count w') =
    inr (if dict_contains chat_id (chats w) then length (chats w)
         else S (length (chats w))).
Proof.
  intros Hu. csimpl. split; [by apply dict_set_unique|].
  f_equal. rewrite <- (length_fmap fst), dict_set_keys.
  destruct (dict_contains chat_id (chats w)).
  - by rewrite length_fmap.
  - rewrite length_app, length_fmap. csimpl. lia.
Qed.

Lemma add_chat_count_witness :
  fst (get_chat_count
         (snd (add_chat 5 (lit "C") (lit "channel") (lit "t")
                 (world_with hello_post
                    [(1%Z, chat_info "A"); (2%Z, chat_info "B")]))))
  = inr 3.
Proof.
  assert (Hu : unique_keys [(1%Z, chat_info "A"); (2%Z, chat_info "B")]).
  { unfold unique_keys. csimpl. apply NoDup_cons. split.
    - rewrite list_elem_of_singleton. discriminate.
    - apply NoDup_singleton. }
  exact (proj2 (add_chat_count 5 (lit "C") (lit "channel") (lit "t")
                  (world_with hello_post
                     [(1%Z, chat_info "A"); (2%Z, chat_info "B")]) Hu)).
Defined.

Lemma dict_del_length k d :
  length (dict_del k d) =
    if dict_contains k d then length d - 1 else length d.
Proof.
  induction d as [|[k0 v0] d IH]; csimpl; [done|].
  destruct (k0 =? k)%Z; csimpl; [lia|].
  rewrite IH. destruct (dict_contains k d) eqn:E; [|done].
  destruct d; [done|]. csimpl. lia.
Qed.

Lemma dict_set_contains k v d : dict_contains k (dict_set k v d) = true.
Proof.
  apply dict_contains_elem. rewrite dict_set_keys.
  destruct (dict_contains k d) eqn:E.
  - by apply dict_contains_elem.
  - rewrite elem_of_app, list_elem_of_singleton. by right.
Qed.

(** X3: [remove_chat] takes the id out of the registry and leaves every
    other id with its record; for an id that is not registered it changes
    nothing; the count drops by one exactly when the id was there. *)
Theorem remove_chat_lookup chat_id w :
  unique_keys (chats w) ->
  let w' := snd (remove_chat chat_id w) in
  fst (remove_chat chat_id w) = inr tt /\
  dict_get chat_id (chats w') = None /\
  (chat_id ∉ (chats w').*1) /\
  (forall k, k <> chat_id -> dict_get k (chats w') = dict_get k (chats w)) /\
  unique_keys (chats w') /\
  (dict_contains chat_id (chats w) = false -> w' = w) /\
  length (chats w') =
    (if dict_contains chat_id (chats w) then length (chats w) - 1
     else length (chats w)).
Proof.
  intros Hu. unfold remove_chat.
  destruct (dict_contains chat_id (chats w)) eqn:E; csimpl.
  - pose proof (dict_del_gone chat_id (chats w) Hu) as Hg.
    split_ands; try done.
    + by apply dict_get_absent.
    + intros k Hk. by apply dict_get_del_other.
    + by apply dict_del_unique.
    + by rewrite dict_del_length, E.
  - apply dict_contains_false in E as Hn.
    split_ands; try done. by apply dict_get_absent.
Qed.

Lemma two_chats_unique :
  unique_keys [(1%Z, chat_info "A"); (2%Z, chat_info "B")].
Proof.
  unfold unique_keys. csimpl. apply NoDup_cons. split.
  - rewrite list_elem_of_singleton. discriminate.
  - apply NoDup_singleton.
Qed.

Lemma remove_chat_lookup_witness :
  chats (snd (remove_chat 1
                (world_with hello_post
                   [(1%Z, chat_info "A"); (2%Z, chat_info "B")])))
    = [(2%Z, chat_info "B")] /\
  length (chats (snd (remove_chat 1
                        (world_with hello_post
                           [(1%Z, chat_info "A"); (2%Z, chat_info "B")]))))
    = 1.
Proof.
  split; [reflexivity|].
  exact (proj2 (proj2 (proj2 (proj2 (proj2 (proj2
           (remove_chat_lookup 1
              (world_with hello_post
                 [(1%Z, chat_info "A"); (2%Z, chat_info "B")])
              two_chats_unique))))))).
Defined.

(** X4: registering a chat that was not registered and removing it again
    gives the registry back as it was, order included. *)
Theorem add_then_remove_chat chat_id title type now w :
  dict_contains chat_id (chats w) = false ->
  chats (snd (remove_chat chat_id
                (snd (add_chat chat_id title type now w)))) = chats w.
Proof.
  intros E. unfold remove_chat, add_chat. csimpl.
  rewrite dict_set_contains. csimpl.
  apply dict_del_set_fresh. by apply dict_contains_false.
Qed.

Lemma add_then_remove_chat_witness :
  chats (snd (remove_chat 5
                (snd (add_chat 5 (lit "C") (lit "channel") (lit "t")
                        (world_with hello_post
                           [(1%Z, chat_info "A"); (2%Z, chat_info "B")])))))
  = [(1%Z, chat_info "A"); (2%Z, chat_info "B")].
Proof.
  exact (add_then_remove_chat 5 (lit "C") (lit "channel") (lit "t")
           (world_with hello_post
              [(1%Z, chat_info "A"); (2%Z, chat_info "B")]) eq_refl).
Defined.

(** X5: [track_chat] never raises and never touches the user data. A chat
    whose type is not group, supergroup or channel is ignored: nothing is
    registered and nothing is sent. A group or supergroup, whose update
    carries a message, is registered under its id with its title and type
    and sent the welcome text, and it stays registered when that message
    fails. A channel, whose update is a channel post without
    [update.message], is registered too, and no call is made for it. *)
Theorem track_chat_registers bot u now w :
  let r := track_chat bot u now w in
  let chat := effective_chat u in
  fst r = inr tt /\ user_data (snd r) = user_data w /\
  if bool_decide (Chat.type chat
                  ∈ [lit "group"; lit "supergroup"; lit "channel"])
  then
    dict_get (Chat.id chat) (chats (snd r)) =
      Some {| chat_title := Chat.title chat; chat_type := Chat.type chat;
              added_at := now |} /\
    (forall k, k <> Chat.id chat ->
               dict_get k (chats (snd r)) = dict_get k (chats w)) /\
    match u with
    | chat_message _ =>
        Chat.type chat <> lit "channel" ->
        trace (snd r) = trace w ++ [send_message (Chat.id chat) welcome None]
    | channel_post _ _ => trace (snd r) = trace w
    end
  else snd r = w.
Proof.
  unfold track_chat.
  destruct (bool_decide _); [|done].
  assert (Hget : forall cs k v,
            k <> Chat.id (effective_chat u) ->
            dict_get k (dict_set (Chat.id (effective_chat u)) v cs)
            = dict_get k cs).
  { intros cs k v Hk. rewrite dict_get_set.
    destruct (k =? Chat.id (effective_chat u))%Z eqn:E; [|done].
    apply Z.eqb_eq in E. congruence. }
  unfold add_chat. unfold_m. destruct u as [chat|cid title]; csimpl.
  - destruct (raises bot _ _); csimpl;
      (split_ands; try done;
       [ by rewrite dict_get_set, Z.eqb_refl
       | intros k Hk; by apply (Hget (chats w) k) ]).
  - split_ands; try done.
    + by rewrite dict_get_set, Z.eqb_refl.
    + intros k Hk. by apply (Hget (chats w) k).
Qed.

(** A channel post registers the channel and sends nothing, even on a
    platform on which every call returns. *)
Example track_chat_channel :
  let r := track_chat friendly_bot (channel_post 9 (lit "News")) (lit "t")
             (world_with hello_post []) in
  chats (snd r) =
    [(9%Z, {| chat_title := lit "News"; chat_type := lit "channel";
              added_at := lit "t" |})] /\
  trace (snd r) = [].
Proof. vm_compute. split; reflexivity. Qed.

(** A message in a group registers the group and sends the welcome. *)
Example track_chat_group :
  let chat := {| Chat.id := 4; Chat.title := lit "Team";
                 Chat.type := lit "group" |} in
  let r := track_chat friendly_bot (chat_message chat) (lit "t")
             (world_with hello_post []) in
  chats (snd r) =
    [(4%Z, {| chat_title := lit "Team"; chat_type := lit "group";
              added_at := lit "t" |})] /\
  trace (snd r) = [send_message 4 welcome None].
Proof. vm_compute. split; reflexivity. Qed.

(** X6: [track_chat_removal] never raises. When the new status of the bot
    is ['left'] or ['kicked'] the chat is no longer in the registry and
    the other chats are as they were; for any other status the registry is
    unchanged. *)
Theorem track_chat_removal_prunes chat new_status w :
  unique_keys (chats w) ->
  let r := track_chat_removal chat new_status w in
  fst r = inr tt /\
  if bool_decide (new_status ∈ [lit "left"; lit "kicked"])
  then
    (Chat.id chat ∉ (chats (snd r)).*1) /\
    (forall k, k <> Chat.id chat ->
               dict_get k (chats (snd r)) = dict_get k (chats w)) /\
    unique_keys (chats (snd r))
  else snd r = w.
Proof.
  intros Hu. unfold track_chat_removal.
  destruct (bool_decide _); [|done].
  unfold remove_chat.
  destruct (dict_contains (Chat.id chat) (chats w)) eqn:E; csimpl.
  - split_ands; try done.
    + by apply dict_del_gone.
    + intros k Hk. by apply dict_get_del_other.
    + by apply dict_del_unique.
  - split_ands; try done. by apply dict_contains_false.
Qed.

Lemma track_chat_removal_prunes_witness :
  chats (snd (track_chat_removal
                {| Chat.id := 2; Chat.title := lit "B";
                   Chat.type := lit "group" |} (lit "kicked")
                (world_with hello_post
                   [(1%Z, chat_info "A"); (2%Z, chat_info "B")])))
    = [(1%Z, chat_info "A")] /\
  2%Z ∉ (chats (snd (track_chat_removal
                       {| Chat.id := 2; Chat.title := lit "B";
                          Chat.type := lit "group" |} (lit "kicked")
                       (world_with hello_post
                          [(1%Z, chat_info "A"); (2%Z, chat_info "B")])))).*1.
Proof.
  split; [reflexivity|].
  exact (proj1 (proj2
           (track_chat_removal_prunes
              {| Chat.id := 2; Chat.title := lit "B";
                 Chat.type := lit "group" |} (lit "kicked")
              (world_with hello_post
                 [(1%Z, chat_info "A"); (2%Z, chat_info "B")])
              two_chats_unique))).
Defined.

Lemma track_chat_removal_gone chat new_status w :
  unique_keys (chats w) ->
  new_status ∈ [lit "left"; lit "kicked"] ->
  Chat.id chat ∉ (chats (snd (track_chat_removal chat new_status w))).*1.
Proof.
  intros Hu Hs. unfold track_chat_removal.
  rewrite bool_decide_eq_true_2 by done. unfold remove_chat.
  destruct (dict_contains (Chat.id chat) (chats w)) eqn:E; csimpl.
  - by apply dict_del_gone.
  - by apply dict_contains_false.
Qed.

(** X7: a broadcast that follows the removal of a chat makes no call to
    that chat: its membership is not queried and nothing is sent to it. *)
Theorem removed_chat_is_not_contacted bot chat new_status post w :
  unique_keys (chats w) ->
  new_status ∈ [lit "left"; lit "kicked"] ->
  let w1 := snd (track_chat_removal chat new_status w) in
  exists t w2,
    broadcast_loop bot post (chats w1) tally0 w1 = (inr t, w2) /\
    (Chat.id chat ∉ queried (new_calls w1 w2)) /\
    Chat.id chat ∉ sent_to (new_calls w1 w2).
Proof.
  intros Hu Hs. csimpl.
  pose proof (track_chat_removal_gone chat new_status w Hu Hs) as Hg.
  destruct (broadcast_loop_total bot post
              (chats (snd (track_chat_removal chat new_status w))) tally0
              (snd (track_chat_removal chat new_status w)))
    as (t & w2 & E & _ & _ & _ & _ & calls & Ht & Hq & Hsub).
  exists t, w2. split; [done|]. rewrite (new_calls_app _ _ _ Ht), Hq.
  split; [done|]. intros Hin. apply Hg.
  by apply (sublist_subseteq _ _ Hsub).
Qed.

Lemma removed_chat_is_not_contacted_witness :
  exists t w2,
    broadcast_loop friendly_bot hello_post [(1%Z, chat_info "A")] tally0
      (snd (track_chat_removal
              {| Chat.id := 2; Chat.title := lit "B";
                 Chat.type := lit "group" |} (lit "left")
              (world_with hello_post
                 [(1%Z, chat_info "A"); (2%Z, chat_info "B")])))
      = (inr t, w2) /\
    (2%Z ∉ queried (trace w2)) /\ (2%Z ∉ sent_to (trace w2)).
Proof.
  assert (Hs : lit "left" ∈ [lit "left"; lit "kicked"])
    by (apply elem_of_cons; by left).
  destruct (removed_chat_is_not_contacted friendly_bot
              {| Chat.id := 2; Chat.title := lit "B";
                 Chat.type := lit "group" |} (lit "left") hello_post
              (world_with hello_post
                 [(1%Z, chat_info "A"); (2%Z, chat_info "B")])
              two_chats_unique Hs)
    as (t & w2 & E & Hq & Hsent).
  exists t, w2. split; [exact E|]. split; [exact Hq | exact Hsent].
Defined.

(** ** What the handlers return *)

Lemma returns_in_mret S s : s ∈ S -> returns_in S (mret s).
Proof. intros Hs w s' w' [= <- _]. done. Qed.

Lemma returns_in_raise S e : returns_in S (raise e).
Proof. intros w s w' [=]. Qed.

Lemma returns_in_bind {A} S (m : M A) (f : A -> M State) :
  (forall a, returns_in S (f a)) -> returns_in S (m ≫= f).
Proof.
  intros Hf w s w'. unfold mbind, M_bind.
  destruct (m w) as [[e|a] w1]; [discriminate|]. apply Hf.
Qed.

(** Walks to the [return] statements of a handler. *)
Ltac walk_returns :=
  repeat first
    [ apply returns_in_raise
    | apply returns_in_mret; set_solver
    | match goal with
      | |- returns_in _ (if ?b then _ else _) => destruct b
      | |- returns_in _ (match ?x with _ => _ end) => destruct x
      end
    | apply returns_in_bind; intros ? ].

Lemma run_returns bot h u : returns_in (returns_of h) (run bot h u).
Proof.
  destruct h; unfold run, returns_of, new_post, handle_image, skip_image,
    handle_title, handle_description, skip_description, handle_url,
    skip_url, confirm_send, cancel, ask_for_title, ask_for_description,
    ask_for_url, show_preview;
    walk_returns.
Qed.

Lemma first_match_elem hs u h :
  first_match hs u = Some h -> h ∈ hs.*2.
Proof.
  induction hs as [|[f h'] hs IH]; csimpl; [done|].
  destruct (check_update f u).
  - intros [= ->]. apply elem_of_cons. by left.
  - intros H. apply elem_of_cons. right. auto.
Qed.

Ltac split_elem H :=
  repeat (apply elem_of_cons in H as [H|H]; [try subst|]);
  try (by apply elem_of_nil in H).

Ltac in_list :=
  repeat first [ apply list_elem_of_here | apply list_elem_of_further ].

(** X8: the conversation only moves forward. One update leaves the
    conversation where it is, takes it to the next step of the wizard, or
    ends it; from no conversation it can only start at the image step.
    No update goes back a step or skips one. *)
Theorem conversation_moves_forward bot conv u w :
  fst (conversation_update bot conv u w) ∈ successors conv.
Proof.
  unfold conversation_update.
  destruct (find_handler conv u) as [h|] eqn:Ef.
  2:{ csimpl. destruct conv as [[]|]; in_list. }
  destruct (run bot h u w) as [[e|s] w'] eqn:Er.
  { csimpl. destruct conv as [[]|]; in_list. }
  pose proof (run_returns bot h u w s w' Er) as Hs.
  unfold find_handler in Ef.
  destruct conv as [st|]; apply first_match_elem in Ef.
  - destruct st; csimpl in Ef; split_elem Ef; csimpl in Hs; split_elem Hs;
      csimpl; in_list.
  - csimpl in Ef. split_elem Ef; csimpl in Hs; split_elem Hs; csimpl; in_list.
Qed.

(** ** Properties of the user data the handlers maintain *)

Section Maintains.

Context (P : gmap string Post -> Prop).

Lemma maintains_read_only {A} (m : M A) : read_only m -> maintains P m.
Proof. intros H w r w' HP E. by rewrite (H w r w' E). Qed.

Lemma maintains_mret {A} (a : A) : maintains P (mret a).
Proof. by intros w r w' HP [= _ <-]. Qed.

Lemma maintains_raise {A} e : maintains P (@raise A e).
Proof. by intros w r w' HP [= _ <-]. Qed.

(** The continuation only has to be followed for the values the first
    computation can return. *)
Lemma maintains_bind {A B} (m : M A) (f : A -> M B) :
  maintains P m ->
  (forall a, (exists w w', m w = (inr a, w')) -> maintains P (f a)) ->
  maintains P (m ≫= f).
Proof.
  intros Hm Hf w r w' HP. unfold mbind, M_bind.
  destruct (m w) as [[e|a] w1] eqn:E.
  - intros [= _ <-]. by apply (Hm w (inl e) w1).
  - apply Hf; [eauto|]. by apply (Hm w (inr a) w1).
Qed.

Lemma maintains_update_post f :
  (forall d p, P d -> d !! "post"%string = Some p ->
               P (<["post"%string := f p]> d)) ->
  maintains P (update_post f).
Proof.
  intros Hf w r w' HP. unfold update_post, get_post, put_post.
  unfold mbind, M_bind.
  destruct (user_data w !! "post"%string) as [p|] eqn:Hp;
    intros [= _ <-]; [|done].
  simpl. auto.
Qed.

Lemma maintains_put_post p :
  (forall d, P d -> P (<["post"%string := p]> d)) ->
  maintains P (put_post p).
Proof. intros Hp w r w' HP [= _ <-]. simpl. auto. Qed.

Lemma maintains_clear_user_data : P ∅ -> maintains P clear_user_data.
Proof. by intros HP w r w' _ [= _ <-]. Qed.

End Maintains.

Lemma read_only_get_post : read_only get_post.
Proof.
  intros w r w'. unfold get_post.
  destruct (user_data w !! "post"%string); by intros [= _ <-].
Qed.

Lemma read_only_get_chat_count : read_only get_chat_count.
Proof. by intros w r w' [= _ <-]. Qed.

Lemma read_only_get_all_chats : read_only get_all_chats.
Proof. by intros w r w' [= _ <-]. Qed.

Lemma read_only_operator_calls bot u m kb photo :
  read_only (message_reply_text bot u m kb) /\
  read_only (message_reply_photo bot u photo m kb) /\
  read_only (query_edit_text bot u m kb) /\
  read_only (query_reply_text bot u m kb) /\
  read_only (query_reply_photo bot u photo m kb).
Proof.
  unfold message_reply_text, message_reply_photo, query_edit_text,
    query_reply_text, query_reply_photo.
  split_ands;
    (destruct (has_message u), (has_callback_query u);
     first [ apply read_only_await | by intros w r w' [= _ <-] ]).
Qed.

Lemma read_only_message_text_strip u : read_only (message_text_strip u).
Proof. destruct u; by intros w r w' [= _ <-]. Qed.

Lemma read_only_message_photo u : read_only (message_photo u).
Proof. destruct u; by intros w r w' [= _ <-]. Qed.

Lemma read_only_index {A} (l : list A) i : read_only (index l i).
Proof. unfold index. destruct (l !! i); by intros w r w' [= _ <-]. Qed.

Lemma read_only_index_last {A} (l : list A) : read_only (index_last l).
Proof. unfold index_last. destruct (last l); by intros w r w' [= _ <-]. Qed.

Lemma read_only_broadcast_loop bot post items t :
  read_only (broadcast_loop bot post items t).
Proof.
  intros w r w' E.
  destruct (broadcast_loop_total bot post items t w)
    as (t' & w2 & E2 & _ & _ & Hu & _).
  rewrite E in E2. by injection E2 as _ <-.
Qed.

Lemma read_only_message_reply_text bot u m kb :
  read_only (message_reply_text bot u m kb).
Proof. apply (read_only_operator_calls bot u m kb None). Qed.
Lemma read_only_message_reply_photo bot u photo m kb :
  read_only (message_reply_photo bot u photo m kb).
Proof. apply (read_only_operator_calls bot u m kb photo). Qed.
Lemma read_only_query_edit_text bot u m kb :
  read_only (query_edit_text bot u m kb).
Proof. apply (read_only_operator_calls bot u m kb None). Qed.
Lemma read_only_query_reply_text bot u m kb :
  read_only (query_reply_text bot u m kb).
Proof. apply (read_only_operator_calls bot u m kb None). Qed.
Lemma read_only_query_reply_photo bot u photo m kb :
  read_only (query_reply_photo bot u photo m kb).
Proof. apply (read_only_operator_calls bot u m kb photo). Qed.

Create HintDb read_only_db.
#[local] Hint Resolve read_only_await read_only_get_post
  read_only_get_chat_count read_only_get_all_chats
  read_only_message_text_strip read_only_message_photo read_only_index
  read_only_index_last read_only_broadcast_loop read_only_query_answer
  read_only_message_reply_text read_only_message_reply_photo
  read_only_query_edit_text read_only_query_reply_text
  read_only_query_reply_photo show_preview_read_only : read_only_db.

(** Walks through a handler statement by statement, keeping what the
    conditions passed on the way say; stops at the assignments. *)
Ltac walk_maintains :=
  repeat first
    [ apply maintains_mret
    | apply maintains_raise
    | apply maintains_read_only; solve [eauto with read_only_db]
    | match goal with
      | |- maintains _ (update_post _) => fail 2
      | |- maintains _ (put_post _) => fail 2
      | |- maintains _ clear_user_data => fail 2
      | |- maintains _ (if ?b then _ else _) => destruct b eqn:?
      | |- maintains _ (match ?x with _ => _ end) => destruct x eqn:?
      end
    | apply maintains_bind; [|intros ? ?] ].

Lemma strip_idem s : strip (strip s) = strip s.
Proof.
  unfold strip. by rewrite lstrip_rstrip, lstrip_idem, rstrip_idem.
Qed.

Lemma message_text_strip_stripped u w a w' :
  message_text_strip u w = (inr a, w') -> strip a = a.
Proof.
  destruct u; intros [= <- _]; apply strip_idem.
Qed.

Lemma fresh_post_bounds : draft_bounds fresh_post.
Proof. unfold draft_bounds. simpl. split_ands; by intros s. Qed.

(** An assignment to a field keeps the bounds when the new Draft is within
    them. *)
Lemma bounded_update_post f :
  (forall p, draft_bounds p -> draft_bounds (f p)) ->
  maintains bounded (update_post f).
Proof.
  intros Hf. apply maintains_update_post. intros d p Hd Hp q.
  rewrite lookup_insert_eq. intros [= <-]. auto.
Qed.

(** Every handler of the wizard keeps the bounds. *)
Lemma run_bounded bot h u : maintains bounded (run bot h u).
Proof.
  destruct h; unfold run, new_post, handle_image, skip_image, handle_title,
    handle_description, skip_description, handle_url, skip_url,
    confirm_send, cancel, ask_for_title, ask_for_description, ask_for_url;
    walk_maintains;
    try (apply maintains_clear_user_data; unfold bounded; intros ?;
         by rewrite lookup_empty);
    try (apply maintains_put_post; unfold bounded; intros ? _ ?;
         rewrite lookup_insert_eq; intros [= <-]; apply fresh_post_bounds);
    apply bounded_update_post; intros p (Ht & Hd & Hu);
    unfold draft_bounds; simpl; split_ands; try done; intros s [= <-].
  - (* title *)
    match goal with
    | H : exists w w', message_text_strip _ w = (inr _, w') |- _ =>
        destruct H as (w0 & w1 & H);
        apply message_text_strip_stripped in H
    end.
    match goal with
    | H : (200 <? _) = false |- _ => apply Nat.ltb_ge in H
    end. done.
  - (* description *)
    match goal with
    | H : exists w w', message_text_strip _ w = (inr _, w') |- _ =>
        destruct H as (w0 & w1 & H);
        apply message_text_strip_stripped in H
    end.
    match goal with
    | H : (1000 <? _) = false |- _ => apply Nat.ltb_ge in H
    end. done.
  - (* url *)
    match goal with
    | H : negb _ = false |- _ => apply negb_false_iff in H; exact H
    end.
Qed.

(** X9: every operation of the wizard keeps the Draft within the bounds
    the steps check: a stored title is trimmed and has at most 200
    characters, a stored description is trimmed and has at most 1000, and
    a stored url starts with [http://] or [https://]. *)
Theorem wizard_keeps_draft_bounds bot h u w :
  bounded (user_data w) -> bounded (user_data (snd (run bot h u w))).
Proof.
  intros Hb. destruct (run bot h u w) as [r w'] eqn:E.
  by apply (run_bounded bot h u w r w').
Qed.

Lemma wizard_keeps_draft_bounds_witness :
  exists p,
    user_data (snd (run friendly_bot h_handle_url
                      (text_message (lit " https://t.me/x | Join "))
                      (world_with hello_post [])))
      !! "post"%string = Some p /\
    url p = Some (lit "https://t.me/x") /\ draft_bounds p.
Proof.
  assert (Hb : bounded (user_data (world_with hello_post []))).
  { intros p. vm_compute. intros [= <-]. unfold draft_bounds.
    split_ands; intros s; try discriminate.
    intros [= <-]. split; [vm_compute; lia | reflexivity]. }
  pose proof (wizard_keeps_draft_bounds friendly_bot h_handle_url
                (text_message (lit " https://t.me/x | Join "))
                (world_with hello_post []) Hb) as Hb'.
  eexists. split; [vm_compute; reflexivity|]. split; [reflexivity|].
  apply Hb'. vm_compute. reflexivity.
Defined.

(** Without a Draft the handlers other than [new_post] store nothing. *)
Lemma run_no_draft bot h u :
  h <> h_new_post -> maintains no_draft (run bot h u).
Proof.
  intros Hne.
  destruct h; try done;
    unfold run, handle_image, skip_image, handle_title,
      handle_description, skip_description, handle_url, skip_url,
      confirm_send, cancel, ask_for_title, ask_for_description, ask_for_url;
    walk_maintains;
    try (apply maintains_clear_user_data; apply lookup_empty);
    apply maintains_update_post; unfold no_draft; congruence.
Qed.

Lemma needs_post_update f w :
  no_draft (user_data w) -> exists e, fst (update_post f w) = inl e.
Proof.
  unfold no_draft, update_post, get_post. unfold mbind, M_bind.
  intros ->. eauto.
Qed.

Lemma needs_post_get w :
  no_draft (user_data w) -> exists e, fst (get_post w) = inl e.
Proof. unfold no_draft, get_post. intros ->. eauto. Qed.

(** A handler that answers the button press and then reads the Draft
    raises when there is none. *)
Lemma answer_then_needs_post {A B} bot u (m : M A) (k : A -> M B) w :
  (forall w1, no_draft (user_data w1) -> exists e, fst (m w1) = inl e) ->
  no_draft (user_data w) ->
  exists e, fst ((query_answer bot u;; x ← m; k x) w) = inl e.
Proof.
  intros Hm Hn. unfold mbind, M_bind.
  destruct (query_answer bot u w) as [[e|[]] w1] eqn:E; [eauto|].
  apply read_only_query_answer in E.
  destruct (Hm w1) as [e He]; [unfold no_draft; by rewrite E|].
  destruct (m w1) as [[e'|a] w2]; [eauto|]. simpl in He. discriminate.
Qed.

(** X10: only [new_post] creates a Draft. When the user data holds no
    Draft, no other handler stores one, and the handlers that need it
    (the three skips and the confirmation) raise instead of returning. *)
Theorem only_new_post_creates_a_draft bot h u w :
  h <> h_new_post -> no_draft (user_data w) ->
  no_draft (user_data (snd (run bot h u w))) /\
  (h ∈ [h_skip_image; h_skip_description; h_skip_url; h_confirm_send] ->
   exists e, fst (run bot h u w) = inl e).
Proof.
  intros Hne Hn. split.
  - destruct (run bot h u w) as [r w'] eqn:E.
    by apply (run_no_draft bot h u Hne w r w').
  - intros Hh. split_elem Hh; simpl;
      unfold skip_image, skip_description, skip_url, confirm_send;
      apply answer_then_needs_post;
      auto using needs_post_update, needs_post_get.
Qed.

Lemma only_new_post_creates_a_draft_witness :
  no_draft (user_data
              (snd (run friendly_bot h_confirm_send (callback "confirm_send")
                      {| user_data := ∅;
                         chats := [(1%Z, chat_info "A")];
                         trace := [] |}))) /\
  exists e,
    fst (run friendly_bot h_confirm_send (callback "confirm_send")
           {| user_data := ∅; chats := [(1%Z, chat_info "A")];
              trace := [] |}) = inl e.
Proof.
  assert (Hne : h_confirm_send <> h_new_post) by discriminate.
  assert (Hin : h_confirm_send
                ∈ [h_skip_image; h_skip_description; h_skip_url;
                   h_confirm_send]) by in_list.
  destruct (only_new_post_creates_a_draft friendly_bot h_confirm_send
              (callback "confirm_send")
              {| user_data := ∅; chats := [(1%Z, chat_info "A")];
                 trace := [] |} Hne (lookup_empty _)) as [Hn He].
  split; [exact Hn | exact (He Hin)].
Defined.

(** ** More on the broadcast *)


(** X12: the report [confirm_send] ends with gives the counts of the
    loop and shows the first five of the failure entries the loop
    collected, in the order it collected them, and counts the others: the
    entries shown and the number given for the rest add up to the number
    of failures reported, which is the number of entries. *)
Theorem report_accounts_for_every_failure bot data w p :
  operator_calls_return bot ->
  user_data w !! "post"%string = Some p ->
  chats w <> [] ->
  exists t w2 w' shown more,
    broadcast_loop bot p (chats w) tally0 (broadcast_start w) = (inr t, w2) /\
    confirm_send bot (callback data) w = (inr END, w') /\
    last (trace w') =
      Some (edit_text
              (broadcast_complete (success_count t) (failed_count t)
                 (length (chats w)) shown more) []) /\
    shown = take 5 (failed_chats t) /\
    more = (if 5 <? failed_count t then Some (failed_count t - 5)
            else None) /\
    length (failed_chats t) = failed_count t /\
    failed_chats t = shown ++ drop 5 (failed_chats t) /\
    length shown = min 5 (failed_count t) /\
    length shown + default 0 more = failed_count t.
Proof.
  intros Hop Hp Hne. rewrite confirm_send_callback. simpl.
  rewrite Hp, !Hop by done. unfold broadcast_start.
  destruct (chats w) as [|chat rest] eqn:Hc; [done|].
  destruct (broadcast_loop_total bot p (chat :: rest) tally0
              (logged (reply_text (broadcasting (length (chat :: rest))) [])
                 (logged answer w)))
    as (t & w2 & E & Hs & Hf & _).
  rewrite E, Hop by done. simpl in Hs, Hf.
  assert (Hl : length (failed_chats t) = failed_count t)
    by (simpl in *; lia).
  exists t, w2. eexists. exists (take 5 (failed_chats t)).
  exists (if 5 <? failed_count t then Some (failed_count t - 5) else None).
  split; [reflexivity|]. split; [reflexivity|]. simpl.
  split; [rewrite last_snoc; unfold result_message; by rewrite Hl|].
  split; [done|]. split; [done|]. split; [done|].
  split; [by rewrite take_drop|].
  rewrite length_take, Hl. split; [done|].
  destruct (5 <? failed_count t) eqn:E5.
  - apply Nat.ltb_lt in E5. rewrite Nat.min_l by lia.
    change (default 0 (Some (failed_count t - 5))) with (failed_count t - 5).
    lia.
  - apply Nat.ltb_ge in E5. rewrite Nat.min_r by lia.
    change (default 0 (@None nat)) with 0. lia.
Qed.

Lemma member_bot_operator : operator_calls_return member_bot.
Proof. by intros calls c H. Qed.

(** Seven chats the bot does not administer: the first five failures are
    shown, in registry order, and two are counted. *)
Lemma report_accounts_for_every_failure_witness :
  exists w',
    confirm_send member_bot (callback "confirm_send")
      (world_with hello_post seven_chats) = (inr END, w') /\
    last (trace w') =
      Some (edit_text
              (broadcast_complete 0 7 7
                 [lit "A (not admin)"; lit "B (not admin)";
                  lit "C (not admin)"; lit "D (not admin)";
                  lit "E (not admin)"] (Some 2)) []).
Proof.
  assert (Hne : chats (world_with hello_post seven_chats) <> [])
    by discriminate.
  destruct (report_accounts_for_every_failure member_bot "confirm_send"
              (world_with hello_post seven_chats) hello_post
              member_bot_operator eq_refl Hne)
    as (t & w2 & w' & shown & more & El & E & Hl & -> & -> & _).
  exists w'. split; [exact E|]. rewrite Hl.
  assert (Et : t = {| success_count := 0; failed_count := 7;
                      failed_chats :=
                        [lit "A (not admin)"; lit "B (not admin)";
                         lit "C (not admin)"; lit "D (not admin)";
                         lit "E (not admin)"; lit "F (not admin)";
                         lit "G (not admin)"] |}).
  { vm_compute in El. by injection El as <- _. }
  rewrite Et. reflexivity.
Defined.

(** ** The other steps of the wizard *)

(** [show_preview], by what the platform answers. *)
Lemma show_preview_cases bot u w :
  show_preview bot u w =
    match user_data w !! "post"%string with
    | None => (inl (KeyError "post"), w)
    | Some p =>
        if has_message u || has_callback_query u then
          let c := preview_call u p (length (chats w)) in
          match raises bot (trace w) c with
          | Some e => (inl (TelegramError e), logged c w)
          | None => (inr PREVIEW, logged c w)
          end
        else (inl AttributeError, w)
    end.
Proof.
  unfold show_preview, preview_call, preview_message, preview_keyboard,
    confirm_keyboard.
  unfold_m. simpl.
  destruct (user_data w !! "post"%string) as [p|]; simpl; [|done].
  destruct u; simpl; destruct (truthy (image p)); simpl;
    by destruct (raises bot _ _).
Qed.

(** [handle_description] on a text message, by the length of the trimmed
    text and what the platform answers. *)
Lemma handle_description_text bot t w :
  handle_description bot (text_message t) w =
    if 1000 <? length (strip t) then
      match raises bot (trace w) (reply_text description_too_long []) with
      | Some e => (inl (TelegramError e),
                   logged (reply_text description_too_long []) w)
      | None => (inr ENTERING_DESCRIPTION,
                 logged (reply_text description_too_long []) w)
      end
    else
      match user_data w !! "post"%string with
      | None => (inl (KeyError "post"), w)
      | Some p =>
          let w1 :=
            logged (reply_text description_saved [])
              (with_user_data
                 (<["post"%string := set_description (Some (strip t)) p]>
                    (user_data w)) w) in
          match raises bot (trace w) (reply_text description_saved []) with
          | Some e => (inl (TelegramError e), w1)
          | None =>
              let c := reply_text url_prompt url_keyboard in
              match raises bot (trace w1) c with
              | Some e => (inl (TelegramError e), logged c w1)
              | None => (inr ENTERING_URL, logged c w1)
              end
          end
      end.
Proof.
  unfold handle_description, ask_for_url, url_keyboard. unfold_m.
  simpl. destruct (1000 <? length (strip t)); simpl.
  - by destruct (raises bot _ _).
  - destruct (user_data w !! "post"%string) as [p|]; simpl; [|done].
    destruct (raises bot (trace w) _); simpl; [done|].
    by destruct (raises bot _ _).
Qed.

(** X13: in the description state the text of a message is trimmed of
    the white space around it; a trimmed text of more than 1000
    characters gets a warning and leaves the conversation in the
    description state and the user data untouched, and one of at most
    1000 characters, 1000 included, is stored as the description and,
    once the two replies are out, the conversation is in the url state.
    A message has a text when it is not empty. *)
Theorem description_step bot t w p :
  t <> [] ->
  user_data w !! "post"%string = Some p ->
  trimmed_of t (strip t) /\
  exists conv' w',
    conversation_update bot (Some ENTERING_DESCRIPTION) (text_message t) w
      = (conv', w') /\
    if 1000 <? length (strip t) then
      conv' = Some ENTERING_DESCRIPTION /\ user_data w' = user_data w /\
      new_calls w w' = [reply_text description_too_long []]
    else
      user_data w' =
        <["post"%string := set_description (Some (strip t)) p]>
          (user_data w) /\
      (raises bot (trace w) (reply_text description_saved []) = None ->
       raises bot (trace w ++ [reply_text description_saved []])
         (reply_text url_prompt url_keyboard) = None ->
       conv' = Some ENTERING_URL).
Proof.
  intros Hne Hp. split; [apply strip_trimmed|].
  unfold conversation_update. rewrite (find_handler_text _ t Hne).
  simpl run. rewrite handle_description_text.
  destruct (1000 <? length (strip t)) eqn:El.
  - destruct (raises bot _ _); eexists _, _; (split; [reflexivity|]);
      split_ands; try done; by apply new_calls_app.
  - rewrite Hp. cbv zeta. rewrite trace_logged. simpl trace.
    destruct (raises bot (trace w) (reply_text description_saved [])) eqn:E1.
    { eexists _, _. split; [reflexivity|]. by split. }
    destruct (raises bot (trace w ++ [reply_text description_saved []]) _)
      eqn:E2; eexists _, _; (split; [reflexivity|]); by split.
Qed.

(** A text of 1003 characters, 1000 of them between the white space at
    its ends: the 1000 are stored. *)
Lemma description_step_witness :
  exists conv' w',
    conversation_update friendly_bot (Some ENTERING_DESCRIPTION)
      (text_message (lit "  " ++ replicate 1000 97%N ++ lit " "))
      (world_with hello_post []) = (conv', w') /\
    conv' = Some ENTERING_URL /\
    user_data w' !! "post"%string =
      Some (set_description (Some (replicate 1000 97%N)) hello_post) /\
    trimmed_of (lit "  " ++ replicate 1000 97%N ++ lit " ")
      (replicate 1000 97%N).
Proof.
  assert (Hne : lit "  " ++ replicate 1000 97%N ++ lit " " <> [])
    by discriminate.
  destruct (description_step friendly_bot
              (lit "  " ++ replicate 1000 97%N ++ lit " ")
              (world_with hello_post []) hello_post Hne eq_refl)
    as (Htrim & conv' & w' & E & H).
  assert (Es : strip (lit "  " ++ replicate 1000 97%N ++ lit " ")
               = replicate 1000 97%N) by (vm_compute; reflexivity).
  rewrite Es in H, Htrim.
  match type of H with
  | if ?b then _ else _ =>
      assert (El : b = false) by (vm_compute; reflexivity); rewrite El in H
  end.
  destruct H as [Hu Hc].
  exists conv', w'. split; [exact E|]. split; [|split; [|exact Htrim]].
  - apply Hc; reflexivity.
  - rewrite Hu. vm_compute. reflexivity.
Defined.

(** A description of 1001 trimmed characters is rejected. *)
Example description_too_long_rejected :
  let r := conversation_update friendly_bot (Some ENTERING_DESCRIPTION)
             (text_message (lit " " ++ replicate 1001 97%N))
             (world_with hello_post [])
  in fst r = Some ENTERING_DESCRIPTION /\
     user_data (snd r) !! "post"%string = Some hello_post.
Proof. vm_compute. split; reflexivity. Qed.

(** [handle_image] on a message with photo sizes, by what the platform
    answers. *)
Lemma handle_image_photo bot x ph w :
  handle_image bot (photo_message (x :: ph)) w =
    match user_data w !! "post"%string with
    | None => (inl (KeyError "post"), w)
    | Some p =>
        let w1 :=
          logged (reply_text image_received [])
            (with_user_data
               (<["post"%string := set_image (last (x :: ph)) p]>
                  (user_data w)) w) in
        match raises bot (trace w) (reply_text image_received []) with
        | Some e => (inl (TelegramError e), w1)
        | None =>
            let c := reply_text title_prompt title_keyboard in
            match raises bot (trace w1) c with
            | Some e => (inl (TelegramError e), logged c w1)
            | None => (inr ENTERING_TITLE, logged c w1)
            end
        end
    end.
Proof.
  unfold handle_image, ask_for_title, title_keyboard. unfold_m.
  simpl message_photo. cbv beta iota.
  destruct (last (x :: ph)) as [y|] eqn:El.
  2:{ by apply last_None in El. }
  simpl. rewrite ?El.
  destruct (user_data w !! "post"%string) as [p|]; simpl; [|done].
  destruct (raises bot (trace w) _); simpl; [done|].
  by destruct (raises bot _ _).
Qed.

(** X14: in the image state a photo message stores the file id of the
    last of its sizes, the largest, as the image of the Draft and leaves
    the other fields; once the two replies are out the conversation is in
    the title state. *)
Theorem image_step bot x ph w p :
  user_data w !! "post"%string = Some p ->
  exists conv' w',
    conversation_update bot (Some UPLOADING_IMAGE) (photo_message (x :: ph)) w
      = (conv', w') /\
    user_data w' =
      <["post"%string := set_image (last (x :: ph)) p]> (user_data w) /\
    is_Some (last (x :: ph)) /\
    (raises bot (trace w) (reply_text image_received []) = None ->
     raises bot (trace w ++ [reply_text image_received []])
       (reply_text title_prompt title_keyboard) = None ->
     conv' = Some ENTERING_TITLE).
Proof.
  intros Hp. unfold conversation_update. simpl find_handler. cbv iota.
  simpl run. rewrite handle_image_photo, Hp. cbv zeta.
  rewrite trace_logged. simpl trace.
  assert (Hl : is_Some (last (x :: ph))).
  { destruct (last (x :: ph)) eqn:El; [eauto|]. by apply last_None in El. }
  destruct (raises bot (trace w) (reply_text image_received [])) eqn:E1.
  { eexists _, _. split; [reflexivity|]. by split_ands. }
  destruct (raises bot (trace w ++ [reply_text image_received []]) _) eqn:E2;
    eexists _, _; (split; [reflexivity|]); by split_ands.
Qed.

Lemma image_step_witness :
  exists conv' w',
    conversation_update friendly_bot (Some UPLOADING_IMAGE)
      (photo_message [lit "small"; lit "large"]) (world_with fresh_post [])
      = (conv', w') /\
    conv' = Some ENTERING_TITLE /\
    user_data w' !! "post"%string =
      Some (set_image (Some (lit "large")) fresh_post).
Proof.
  destruct (image_step friendly_bot (lit "small") [lit "large"]
              (world_with fresh_post []) fresh_post eq_refl)
    as (conv' & w' & E & Hu & _ & Hc).
  exists conv', w'. split; [exact E|]. split.
  - apply Hc; reflexivity.
  - rewrite Hu. vm_compute. reflexivity.
Defined.

(** The skip handlers on a button press, on a platform whose calls
    return. *)
Lemma skip_image_returns bot data w p :
  calls_return bot -> user_data w !! "post"%string = Some p ->
  skip_image bot (callback data) w =
    (inr ENTERING_TITLE,
     logged (edit_text title_prompt title_keyboard)
       (with_user_data (<["post"%string := set_image None p]> (user_data w))
          (logged answer w))).
Proof.
  intros Hr Hp. unfold skip_image, ask_for_title, title_keyboard. unfold_m.
  simpl. rewrite Hr. simpl. rewrite Hp. simpl. by rewrite Hr.
Qed.

Lemma skip_description_returns bot data w p :
  calls_return bot -> user_data w !! "post"%string = Some p ->
  skip_description bot (callback data) w =
    (inr ENTERING_URL,
     logged (edit_text url_prompt url_keyboard)
       (with_user_data
          (<["post"%string := set_description None p]> (user_data w))
          (logged answer w))).
Proof.
  intros Hr Hp. unfold skip_description, ask_for_url, url_keyboard. unfold_m.
  simpl. rewrite Hr. simpl. rewrite Hp. simpl. by rewrite Hr.
Qed.

Lemma skip_url_returns bot data w p :
  calls_return bot -> user_data w !! "post"%string = Some p ->
  skip_url bot (callback data) w =
    (inr PREVIEW,
     logged (preview_call (callback data)
               (set_button_text None (set_url None p)) (length (chats w)))
       (with_user_data
          (<["post"%string := set_button_text None (set_url None p)]>
             (user_data w))
          (logged answer w))).
Proof.
  intros Hr Hp. unfold skip_url.
  remember (show_preview bot (callback data)) as preview.
  unfold_m. simpl. rewrite Hr. simpl. rewrite Hp. simpl.
  rewrite lookup_insert_eq. simpl. rewrite insert_post_twice.
  subst preview. rewrite show_preview_cases. simpl.
  rewrite lookup_insert_eq. by rewrite Hr.
Qed.

(** X15: the skip buttons of the optional steps set their fields to
    [None], leave the other fields of the Draft, and move on: the image
    step to the title, the description step to the url, and the url step,
    which clears both [url] and [button_text], to the preview. *)
Theorem skip_steps bot w p :
  calls_return bot -> user_data w !! "post"%string = Some p ->
  (exists w',
     conversation_update bot (Some UPLOADING_IMAGE) (callback "skip_image") w
       = (Some ENTERING_TITLE, w') /\
     user_data w' = <["post"%string := set_image None p]> (user_data w)) /\
  (exists w',
     conversation_update bot (Some ENTERING_DESCRIPTION)
       (callback "skip_description") w = (Some ENTERING_URL, w') /\
     user_data w' =
       <["post"%string := set_description None p]> (user_data w)) /\
  (exists w',
     conversation_update bot (Some ENTERING_URL) (callback "skip_url") w
       = (Some PREVIEW, w') /\
     user_data w' =
       <["post"%string := set_button_text None (set_url None p)]>
         (user_data w) /\
     new_calls w w' =
       [answer;
        preview_call (callback "skip_url")
          (set_button_text None (set_url None p)) (length (chats w))]).
Proof.
  intros Hr Hp. unfold conversation_update. simpl find_handler. cbv iota.
  simpl run.
  rewrite (skip_image_returns bot _ w p Hr Hp),
    (skip_description_returns bot _ w p Hr Hp),
    (skip_url_returns bot _ w p Hr Hp).
  split_ands; eexists; (split; [reflexivity|]); try done.
  split; [done|]. apply new_calls_app. simpl. by rewrite <- app_assoc.
Qed.

Lemma friendly_bot_returns : calls_return friendly_bot.
Proof. by intros calls c. Qed.

Lemma skip_steps_witness :
  exists w',
    conversation_update friendly_bot (Some ENTERING_URL) (callback "skip_url")
      (world_with
         (set_button_text (Some (lit "Go"))
            (set_url (Some (lit "https://x.com")) hello_post)) [])
      = (Some PREVIEW, w') /\
    user_data w' !! "post"%string = Some hello_post.
Proof.
  destruct (skip_steps friendly_bot
              (world_with
                 (set_button_text (Some (lit "Go"))
                    (set_url (Some (lit "https://x.com")) hello_post)) [])
              _ friendly_bot_returns eq_refl)
    as (_ & _ & w' & E & Hu & _).
  exists w'. split; [exact E|]. rewrite Hu. vm_compute. reflexivity.
Defined.

(** The steps of the wizard on a platform whose calls return. *)
Lemma step_new_post bot w :
  calls_return bot ->
  conversation_update bot None (command "newpost") w =
    (Some UPLOADING_IMAGE,
     logged (reply_text new_post_prompt
               [callback_button "skip_image"; callback_button "cancel"])
       (with_user_data (<["post"%string := fresh_post]> (user_data w)) w)).
Proof.
  intros Hr. unfold conversation_update. simpl find_handler. cbv iota.
  simpl run. unfold new_post. unfold_m. simpl. by rewrite Hr.
Qed.

Lemma step_image bot x ph w p :
  calls_return bot -> user_data w !! "post"%string = Some p ->
  conversation_update bot (Some UPLOADING_IMAGE) (photo_message (x :: ph)) w =
    (Some ENTERING_TITLE,
     logged (reply_text title_prompt title_keyboard)
       (logged (reply_text image_received [])
          (with_user_data
             (<["post"%string := set_image (last (x :: ph)) p]>
                (user_data w)) w))).
Proof.
  intros Hr Hp. unfold conversation_update. simpl find_handler. cbv iota.
  simpl run. rewrite handle_image_photo, Hp. cbv zeta. by rewrite !Hr.
Qed.

Lemma step_title bot t w p :
  calls_return bot -> user_data w !! "post"%string = Some p ->
  t <> [] -> length (strip t) <= 200 ->
  conversation_update bot (Some ENTERING_TITLE) (text_message t) w =
    (Some ENTERING_DESCRIPTION,
     logged (reply_text description_prompt description_keyboard)
       (logged (reply_text title_saved [])
          (with_user_data
             (<["post"%string := set_title (Some (strip t)) p]>
                (user_data w)) w))).
Proof.
  intros Hr Hp Hne Hl. unfold conversation_update.
  rewrite (find_handler_text _ t Hne).
  simpl run. rewrite handle_title_text, Hp.
  apply Nat.ltb_ge in Hl. rewrite Hl. cbv zeta. by rewrite !Hr.
Qed.

Lemma step_description bot t w p :
  calls_return bot -> user_data w !! "post"%string = Some p ->
  t <> [] -> length (strip t) <= 1000 ->
  conversation_update bot (Some ENTERING_DESCRIPTION) (text_message t) w =
    (Some ENTERING_URL,
     logged (reply_text url_prompt url_keyboard)
       (logged (reply_text description_saved [])
          (with_user_data
             (<["post"%string := set_description (Some (strip t)) p]>
                (user_data w)) w))).
Proof.
  intros Hr Hp Hne Hl. unfold conversation_update.
  rewrite (find_handler_text _ t Hne).
  simpl run. rewrite handle_description_text, Hp.
  apply Nat.ltb_ge in Hl. rewrite Hl. cbv zeta. by rewrite !Hr.
Qed.

Lemma step_url bot t w p :
  calls_return bot -> user_data w !! "post"%string = Some p ->
  contains bar t = true -> valid_scheme (spec_url t) = true ->
  conversation_update bot (Some ENTERING_URL) (text_message t) w =
    (Some PREVIEW,
     logged (preview_call (text_message t)
               (set_button_text (Some (spec_right t))
                  (set_url (Some (spec_url t)) p)) (length (chats w)))
       (logged (reply_text button_saved [])
          (with_user_data
             (<["post"%string :=
                  set_button_text (Some (spec_right t))
                    (set_url (Some (spec_url t)) p)]> (user_data w)) w))).
Proof.
  intros Hr Hp Hb Hv. unfold conversation_update.
  rewrite find_handler_text by (by destruct t).
  simpl run. rewrite handle_url_text, Hp, Hb, Hv. simpl negb.
  cbv iota zeta. rewrite Hr, show_preview_cases. simpl.
  rewrite lookup_insert_eq. by rewrite Hr.
Qed.

(** X16: in the url state a text with [|] whose trimmed left part starts
    with [http://] or [https://] is accepted: the trimmed left part is
    stored as [url] and the trimmed right part, such as it is, as
    [button_text]; the operator is told so and shown the preview, whose
    keyboard then starts with the link button, and the conversation is in
    the preview state. *)
Theorem url_step_accepts bot t w p :
  calls_return bot -> user_data w !! "post"%string = Some p ->
  contains bar t = true -> valid_scheme (spec_url t) = true ->
  exists w' p',
    conversation_update bot (Some ENTERING_URL) (text_message t) w
      = (Some PREVIEW, w') /\
    p' = set_button_text (Some (spec_right t))
           (set_url (Some (spec_url t)) p) /\
    user_data w' = <["post"%string := p']> (user_data w) /\
    new_calls w w' =
      [reply_text button_saved [];
       preview_call (text_message t) p' (length (chats w))] /\
    preview_keyboard p' =
      url_button (Some (spec_right t)) (Some (spec_url t))
      :: confirm_keyboard.
Proof.
  intros Hr Hp Hb Hv. rewrite (step_url bot t w p Hr Hp Hb Hv).
  eexists _, _. split; [reflexivity|]. split; [reflexivity|].
  split; [done|]. split.
  - apply new_calls_app. simpl. by rewrite <- app_assoc.
  - unfold preview_keyboard, url_row. simpl.
    assert (Hne : nonempty (spec_url t) = true).
    { unfold valid_scheme in Hv. destruct (spec_url t); [|done].
      vm_compute in Hv. discriminate. }
    by rewrite Hne.
Qed.

Lemma url_step_accepts_witness :
  exists w',
    conversation_update friendly_bot (Some ENTERING_URL)
      (text_message (lit "https://t.me/x | Join")) (world_with hello_post [])
      = (Some PREVIEW, w') /\
    user_data w' !! "post"%string =
      Some (set_button_text (Some (lit "Join"))
              (set_url (Some (lit "https://t.me/x")) hello_post)).
Proof.
  destruct (url_step_accepts friendly_bot (lit "https://t.me/x | Join")
              (world_with hello_post []) hello_post friendly_bot_returns
              eq_refl eq_refl eq_refl)
    as (w' & p' & E & -> & Hu & _).
  exists w'. split; [exact E|]. rewrite Hu. vm_compute. reflexivity.
Defined.



(** X18: the steps compose. From no conversation, [/newpost], a photo, a
    message with a title of at most 200 trimmed characters, a message
    with a description of at most 1000 and a url line with a valid scheme
    lead to the preview state with a Draft that holds exactly the last
    photo size, the trimmed title, the trimmed description and the two
    trimmed parts of the url line, whatever the user data held before; the
    registry is not touched. The texts of the messages are not empty. *)
Theorem wizard_composes bot x ph t d line w :
  calls_return bot ->
  t <> [] -> length (strip t) <= 200 ->
  d <> [] -> length (strip d) <= 1000 ->
  contains bar line = true -> valid_scheme (spec_url line) = true ->
  exists photo w',
    last (x :: ph) = Some photo /\
    conversation_run bot None
      [command "newpost"; photo_message (x :: ph); text_message t;
       text_message d; text_message line] w = (Some PREVIEW, w') /\
    user_data w' =
      <["post"%string := composed_post photo t d line]> (user_data w) /\
    chats w' = chats w.
Proof.
  intros Hr Hnt Ht Hnd Hd Hb Hv.
  destruct (last (x :: ph)) as [photo|] eqn:El.
  2:{ by apply last_None in El. }
  exists photo. unfold conversation_run.
  rewrite (step_new_post bot w Hr).
  erewrite step_image; [|done|simpl; apply lookup_insert_eq].
  erewrite step_title; [|done|simpl; apply lookup_insert_eq|done|done].
  erewrite step_description;
    [|done|simpl; apply lookup_insert_eq|done|done].
  erewrite step_url; [|done|simpl; apply lookup_insert_eq|done|done].
  eexists. split; [done|]. split; [reflexivity|]. simpl.
  rewrite !insert_post_twice, El. done.
Qed.

Lemma wizard_composes_witness :
  exists w',
    conversation_run friendly_bot None
      [command "newpost"; photo_message [lit "small"; lit "large"];
       text_message (lit " Sale! "); text_message (lit "50% off");
       text_message (lit "https://shop.com/sale | Shop Now")]
      (world_with hello_post [(1%Z, chat_info "A")]) = (Some PREVIEW, w') /\
    user_data w' !! "post"%string =
      Some {| image := Some (lit "large"); title := Some (lit "Sale!");
              description := Some (lit "50% off");
              url := Some (lit "https://shop.com/sale");
              button_text := Some (lit "Shop Now") |}.
Proof.
  destruct (wizard_composes friendly_bot (lit "small") [lit "large"]
              (lit " Sale! ") (lit "50% off")
              (lit "https://shop.com/sale | Shop Now")
              (world_with hello_post [(1%Z, chat_info "A")])
              friendly_bot_returns)
    as (photo & w' & Hl & E & Hu & _);
    [discriminate | apply Nat.leb_le; vm_compute; reflexivity
    |discriminate | apply Nat.leb_le; vm_compute; reflexivity
    |reflexivity | reflexivity |].
  exists w'. split; [exact E|]. rewrite Hu.
  injection Hl as <-. vm_compute. reflexivity.
Defined.

(** When the bot administers every chat and no call raises, every turn of
    the loop is a success. *)
Lemma broadcast_loop_all_delivered bot post items :
  administers_all bot -> calls_return bot ->
  forall t w,
    exists w' calls,
      broadcast_loop bot post items t w =
        (inr {| success_count := success_count t + length items;
                failed_count := failed_count t;
                failed_chats := failed_chats t |}, w') /\
      trace w' = trace w ++ calls /\
      sent_to calls = items.*1.
Proof.
  intros Ha Hr. induction items as [|[chat_id info] rest IH]; intros t w.
  - exists w, []. simpl. rewrite Nat.add_0_r, app_nil_r.
    by destruct t.
  - rewrite broadcast_loop_cons, broadcast_to_cases. cbv zeta.
    destruct (Ha (trace w) chat_id) as (status & -> & ->).
    rewrite Hr.
    destruct (IH (succeeded t)
                (logged (delivery post chat_id)
                   (logged (get_chat_member chat_id (id bot)) w)))
      as (w' & calls & E & Ht & Hs).
    exists w',
      (get_chat_member chat_id (id bot) :: delivery post chat_id :: calls).
    rewrite E. split.
    + do 3 f_equal. simpl. lia.
    + rewrite Ht. simpl. rewrite <- !app_assoc. split; [done|].
      unfold sent_to in *. unfold delivery.
      destruct (truthy (image post)); csimpl; by rewrite Hs.
Qed.

(** X19: when the bot administers every registered chat and no call
    raises, the broadcast delivers the post to every chat of the registry,
    in registry order, and reports as many successes as there are chats
    and no failure. *)
Theorem broadcast_delivers_to_all bot data w p :
  administers_all bot -> calls_return bot ->
  user_data w !! "post"%string = Some p -> chats w <> [] ->
  exists w',
    confirm_send bot (callback data) w = (inr END, w') /\
    last (trace w') =
      Some (edit_text
              (broadcast_complete (length (chats w)) 0 (length (chats w))
                 [] None) []) /\
    sent_to (new_calls w w') = (chats w).*1 /\
    user_data w' = ∅.
Proof.
  intros Ha Hr Hp Hne. rewrite confirm_send_callback. simpl.
  rewrite Hp, !Hr.
  destruct (chats w) as [|chat rest] eqn:Hc; [done|].
  destruct (broadcast_loop_all_delivered bot p (chat :: rest) Ha Hr tally0
              (logged (reply_text (broadcasting (length (chat :: rest))) [])
                 (logged answer w)))
    as (w2 & calls & E & Ht & Hs).
  rewrite E, Hr. eexists. split; [reflexivity|]. simpl.
  split; [by rewrite last_snoc|]. split; [|done].
  match goal with
  | |- context [new_calls w ?w3] =>
      assert (Htr : trace w3 =
                trace w ++ ([answer; reply_text (broadcasting
                                                   (S (length rest))) []]
                            ++ calls
                            ++ [edit_text
                                  (result_message
                                     {| success_count := S (length rest);
                                        failed_count := 0;
                                        failed_chats := [] |}
                                     (S (length rest))) []]))
        by (simpl; rewrite Ht; simpl; by rewrite <- !app_assoc);
      rewrite (new_calls_app w w3 _ Htr)
  end.
  rewrite !sent_to_app, Hs. simpl. by rewrite app_nil_r.
Qed.

(** Scenario 1: three destinations, all administered, all sends succeed. *)
Lemma broadcast_delivers_to_all_witness :
  exists w',
    confirm_send friendly_bot (callback "confirm_send")
      (world_with hello_post
         [(1%Z, chat_info "A"); (2%Z, chat_info "B"); (3%Z, chat_info "C")])
    = (inr END, w') /\
    last (trace w') = Some (edit_text (broadcast_complete 3 0 3 [] None) []) /\
    sent_to (trace w') = [1%Z; 2%Z; 3%Z].
Proof.
  assert (Ha : administers_all friendly_bot).
  { intros calls chat_id. exists (lit "administrator"). by split. }
  assert (Hne : chats (world_with hello_post
                         [(1%Z, chat_info "A"); (2%Z, chat_info "B");
                          (3%Z, chat_info "C")]) <> []) by discriminate.
  destruct (broadcast_delivers_to_all friendly_bot "confirm_send"
              (world_with hello_post
                 [(1%Z, chat_info "A"); (2%Z, chat_info "B");
                  (3%Z, chat_info "C")])
              hello_post Ha friendly_bot_returns eq_refl Hne)
    as (w' & E & Hl & Hs & _).
  exists w'. split; [exact E|]. split; [exact Hl | exact Hs].
Defined.

(** X20: the failures of a broadcast are listed in the order of the
    registry: the entries the loop adds to [failed_chats] are the entries
    of a subsequence of the registry, one for each, each made of the
    title of its chat and the reason; the other chats are the successes. *)
Theorem failures_follow_registry_order bot post items : forall t w,
  exists t' w' failed_items entries,
    broadcast_loop bot post items t w = (inr t', w') /\
    failed_chats t' = failed_chats t ++ entries /\
    failed_items `sublist_of` items /\
    Forall2 failure_of failed_items entries /\
    failed_count t' = failed_count t + length failed_items /\
    success_count t' + length failed_items = success_count t + length items.
Proof.
  induction items as [|[chat_id info] rest IH]; intros t w.
  { exists t, w, [], []. rewrite app_nil_r. simpl.
    split_ands; try done; try lia. }
  rewrite broadcast_loop_cons, broadcast_to_cases. cbv zeta.
  assert (Hfail : forall entry w1,
            failure_of (chat_id, info) entry ->
            exists t' w' failed_items entries,
              broadcast_loop bot post rest (failed entry t) w1 = (inr t', w') /\
              failed_chats t' = failed_chats t ++ entries /\
              failed_items `sublist_of` (chat_id, info) :: rest /\
              Forall2 failure_of failed_items entries /\
              failed_count t' = failed_count t + length failed_items /\
              success_count t' + length failed_items =
                success_count t + length ((chat_id, info) :: rest)).
  { intros entry w1 He.
    destruct (IH (failed entry t) w1)
      as (t' & w' & fi & es & E & Hf & Hsub & Hall & Hc & Hs).
    exists t', w', ((chat_id, info) :: fi), (entry :: es).
    simpl in *. split_ands; try done; try lia.
    - by rewrite Hf, <- app_assoc.
    - by apply sublist_skip.
    - by constructor. }
  destruct (chat_member_status bot (trace w) chat_id (id bot))
    as [e|status].
  { apply Hfail. right. eauto. }
  destruct (is_admin_status status).
  2:{ apply Hfail. by left. }
  destruct (raises bot _ _) as [e|].
  { apply Hfail. right. eauto. }
  match goal with
  | |- context [broadcast_loop bot post rest ?t1 ?w1] =>
      destruct (IH t1 w1)
        as (t' & w' & fi & es & E & Hf & Hsub & Hall & Hc & Hs)
  end.
  exists t', w', fi, es. simpl in *.
  split_ands; try done; try lia. by apply sublist_cons.
Qed.
